(** * go-config: configuration loading and .env parsing

    A shallow embedding of the two released versions of the package:

    - [V2] is [goconfig/config.go] (v2.0.0): the [GoConfig] interface,
      deny-list extension filter, sentinel errors combined with
      [formatError];
    - [V1] is the v1.0.0 file: package-level functions, allow-list
      extension filter, format-string errors and the injectable
      [setEnvFunc].

    The Go standard library functions the package calls are modelled in
    modules named after their packages ([strings], [slices], [path],
    [regexp], [os], [bufio], [fmt]), so that the embedded code reads like
    the source.  Go strings are byte sequences; they are [string] here,
    one [ascii] per byte. *)

From Stdlib Require Import Ascii String Arith Lia.
From stdpp Require Import base option list strings gmap.

(** ** Bytes and character classes *)

Definition byte_in (lo hi : nat) (c : ascii) : bool :=
  (lo <=? nat_of_ascii c) && (nat_of_ascii c <=? hi).

Definition byte_is (n : nat) (c : ascii) : bool := nat_of_ascii c =? n.

Definition bytes (l : list nat) : string :=
  string_of_list_ascii (map ascii_of_nat l).

(** Perl classes of Go's [regexp/syntax]: [\w] is [[0-9A-Za-z_]], [\s] is
    [[\t\n\f\r ]], and [.] is any character but a newline. *)
Definition class_w (c : ascii) : bool :=
  byte_in 48 57 c || byte_in 65 90 c || byte_in 97 122 c || byte_is 95 c.

Definition class_s (c : ascii) : bool :=
  byte_is 9 c || byte_is 10 c || byte_is 12 c || byte_is 13 c || byte_is 32 c.

Definition class_dot (c : ascii) : bool := negb (byte_is 10 c).

(** The bracket expression [[\w.-]] of the .env pattern. *)
Definition class_key (c : ascii) : bool :=
  class_w c || byte_is 46 c || byte_is 45 c.

(** ** package strings *)

Module strings.

Fixpoint HasPrefix (s prefix : string) {struct prefix} : bool :=
  match prefix, s with
  | "", _ => true
  | String p prefix', String c s' => Ascii.eqb c p && HasPrefix s' prefix'
  | String _ _, "" => false
  end.

(** [strings.Cut] for a one-byte separator: the text before and after the
    first occurrence of [sep]; without one, [(s, "", false)]. *)
Fixpoint Cut (s : string) (sep : ascii) : string * string * bool :=
  match s with
  | "" => ("", "", false)
  | String c s' =>
      if Ascii.eqb c sep then ("", s', true)
      else let '(before, after, found) := Cut s' sep in
           (String c before, after, found)
  end.

(** [strings.SplitN]: at most [n] pieces, the last one unsplit. *)
Fixpoint SplitN (s : string) (sep : ascii) (n : nat) : list string :=
  match n with
  | 0 => []
  | 1 => [s]
  | S n' =>
      match Cut s sep with
      | (before, after, true) => before :: SplitN after sep n'
      | _ => [s]
      end
  end.

(** [strings.EqualFold].  The loop is the ASCII path of the Go function;
    as soon as either string shows a byte of 0x80 or more Go switches to
    Unicode simple folding on the remainders, which is left to the
    parameter [unicode]. *)
Fixpoint EqualFold (unicode : string -> string -> bool) (s t : string) : bool :=
  match s, t with
  | String sr s', String tr t' =>
      if (128 <=? nat_of_ascii sr) || (128 <=? nat_of_ascii tr) then unicode s t
      else if Ascii.eqb tr sr then EqualFold unicode s' t'
      else
        let lo := Nat.min (nat_of_ascii sr) (nat_of_ascii tr) in
        let hi := Nat.max (nat_of_ascii sr) (nat_of_ascii tr) in
        if (65 <=? lo) && (lo <=? 90) && (hi =? lo + 32)
        then EqualFold unicode s' t' else false
  | "", "" => true
  | _, _ => false
  end.

(** The UTF-8 encodings of the runes for which [unicode.IsSpace] holds:
    U+0009..U+000D, U+0020, U+0085, U+00A0, U+1680, U+2000..U+200A,
    U+2028, U+2029, U+202F, U+205F, U+3000. *)
Definition spaceRunes : list string :=
  map bytes
    [ [9]; [10]; [11]; [12]; [13]; [32]; [194; 133]; [194; 160];
      [225; 154; 128];
      [226; 128; 128]; [226; 128; 129]; [226; 128; 130]; [226; 128; 131];
      [226; 128; 132]; [226; 128; 133]; [226; 128; 134]; [226; 128; 135];
      [226; 128; 136]; [226; 128; 137]; [226; 128; 138];
      [226; 128; 168]; [226; 128; 169]; [226; 128; 175];
      [226; 129; 159]; [227; 128; 128] ].

(** The space rune [s] starts with, if it starts with one. *)
Definition leadingSpace (s : string) : option string :=
  List.find (HasPrefix s) spaceRunes.

Fixpoint drop (n : nat) (s : string) : string :=
  match n, s with
  | S n', String _ s' => drop n' s'
  | _, _ => s
  end.

(** Removes leading space runes, at most [fuel] of them; a string has no
    more runes than bytes. *)
Fixpoint trimLeft (fuel : nat) (s : string) : string :=
  match fuel with
  | 0 => s
  | S fuel' =>
      match leadingSpace s with
      | Some r => trimLeft fuel' (drop (String.length r) s)
      | None => s
      end
  end.

Definition TrimLeftSpace (s : string) : string :=
  trimLeft (String.length s) s.

(** Removes the longest suffix made of space runes: the string is cut
    at the first position from which only white space follows. *)
Fixpoint TrimRightSpace (s : string) : string :=
  match s with
  | "" => ""
  | String c s' =>
      if String.eqb (TrimLeftSpace s) "" then ""
      else String c (TrimRightSpace s')
  end.

(** [strings.TrimSpace]: leading and trailing white space removed. *)
Definition TrimSpace (s : string) : string :=
  TrimRightSpace (TrimLeftSpace s).

End strings.

(** ** package slices *)

Module slices.

Fixpoint Contains (s : list string) (v : string) : bool :=
  match s with
  | [] => false
  | x :: s' => String.eqb x v || Contains s' v
  end.

End slices.

(** ** package path *)

Module path.

(** The elements of a path: the texts between its slashes. *)
Fixpoint elements (p : string) : list string :=
  match p with
  | "" => [""]
  | String c p' =>
      if Ascii.eqb c "/" then "" :: elements p'
      else match elements p' with
           | e :: l => String c e :: l
           | [] => [String c ""]
           end
  end.

(** The loop of [path.Clean], element by element.  [out] holds the
    elements written so far, the last one first.  An empty element and
    a [.] element are dropped; a [..] element takes back the last
    element written unless there is none or it is itself [..], and then
    it is written in a path that is not rooted and dropped in a rooted
    one; any other element is written. *)
Fixpoint clean (rooted : bool) (els out : list string) : list string :=
  match els with
  | [] => out
  | e :: els' =>
      if String.eqb e "" || String.eqb e "." then clean rooted els' out
      else if String.eqb e ".." then
        match out with
        | top :: out' =>
            if String.eqb top ".." then clean rooted els' (".." :: out)
            else clean rooted els' out'
        | [] => if rooted then clean rooted els' [] else clean rooted els' [".."]
        end
      else clean rooted els' (e :: out)
  end.

Fixpoint unsplit (els : list string) : string :=
  match els with
  | [] => ""
  | e :: els' =>
      match els' with
      | [] => e
      | _ :: _ => e +:+ "/" +:+ unsplit els'
      end
  end.

(** [path.Clean]: the shortest path equivalent to [p] by lexical
    processing; the empty path and a path that cleans to nothing
    give [.]. *)
Definition Clean (p : string) : string :=
  match p with
  | "" => "."
  | String c _ =>
      let rooted := Ascii.eqb c "/" in
      let out := unsplit (rev (clean rooted (elements p) [])) in
      if rooted then "/" +:+ out
      else if String.eqb out "" then "." else out
  end.

(** [path.Join] of a directory and an entry name: the elements that are
    not empty, joined by a slash, and the result cleaned; the empty
    path when both are empty. *)
Definition Join (dir name : string) : string :=
  if String.eqb dir "" then
    if String.eqb name "" then "" else Clean name
  else if String.eqb name "" then Clean dir
  else Clean (dir +:+ "/" +:+ name).

End path.

(** ** package errors and fmt.Errorf *)

Module errors.

(** Error values.  [New] is a package-level [errors.New] value, told
    apart by its text; [Opaque] is any error made elsewhere (the
    operating system, the YAML parser, an injected function, or
    [fmt.Errorf] without a [%w] verb); [Wrap] is the result of
    [fmt.Errorf] with a [%w] verb. *)
Inductive error : Type :=
| New (text : string)
| Opaque (text : string)
| Wrap (text : string) (wrapped : error).

(** The [Error()] method. *)
Definition Error (e : error) : string :=
  match e with
  | New text | Opaque text | Wrap text _ => text
  end.

(** [errors.Is err target] for a package-level [target]: walks the
    [Unwrap] chain. *)
Fixpoint Is (err : error) (target : string) : bool :=
  match err with
  | New text => String.eqb text target
  | Opaque _ => false
  | Wrap _ wrapped => Is wrapped target
  end.

End errors.

Abbreviation error := errors.error.

Module fmt.

(** An operand of a formatting verb. *)
Inductive operand : Type :=
| Str (s : string)
| Strs (l : list string)
| Err (e : error).

Fixpoint join (l : list string) : string :=
  match l with
  | [] => ""
  | [x] => x
  | x :: l' => x +:+ " " +:+ join l'
  end.

(** How [%v], [%s] and [%w] print an operand; a slice prints as
    [[a b c]]. *)
Definition show (a : operand) : string :=
  match a with
  | Str s => s
  | Strs l => "[" +:+ join l +:+ "]"
  | Err e => errors.Error e
  end.

(** [render format args wrapped]: the formatted text, and the operand of
    the first [%w] verb if there is one. *)
Fixpoint render (format : string) (args : list operand) (wrapped : option error)
  : string * option error :=
  match format with
  | "" => ("", wrapped)
  | String "%" (String verb rest) =>
      match args with
      | a :: args' =>
          let wrapped' :=
            match wrapped, a with
            | None, Err e => if Ascii.eqb verb "w" then Some e else None
            | _, _ => wrapped
            end in
          let '(text, w) := render rest args' wrapped' in
          (show a +:+ text, w)
      | [] =>
          let '(text, w) := render rest [] wrapped in
          ("%!" +:+ String verb "(MISSING)" +:+ text, w)
      end
  | String c rest =>
      let '(text, w) := render rest args wrapped in (String c text, w)
  end.

Definition Errorf (format : string) (args : list operand) : error :=
  match render format args None with
  | (text, Some e) => errors.Wrap text e
  | (text, None) => errors.Opaque text
  end.

End fmt.

(** ** The process: environment, open files, and a trace of calls *)

Inductive Event : Type :=
| EvReadDir (dir : string)
| EvReadFile (name : string)
| EvOpen (name : string)
| EvClose (name : string)
| EvSetenv (key value : string)
| EvUnmarshal (content : string).

(** The mutable part of the process a call can see: the environment
    variables, the names of the files it holds open, and the calls made so
    far (oldest first). *)
Record World : Type := mkWorld {
  environ : gmap string string;
  open_files : list string;
  trace : list Event
}.

(** A Go call either returns or panics. *)
Inductive Outcome (A : Type) : Type :=
| Returned (a : A)
| Panicked (v : error).
Arguments Returned {A} a.
Arguments Panicked {A} v.

Definition M (A : Type) : Type := World -> Outcome A * World.

Definition ret {A} (a : A) : M A := fun w => (Returned a, w).

Definition bind {A B} (c : M A) (k : A -> M B) : M B :=
  fun w =>
    match c w with
    | (Returned a, w') => k a w'
    | (Panicked v, w') => (Panicked v, w')
    end.

Definition panic {A} (v : error) : M A := fun w => (Panicked v, w).

Definition emit (e : Event) : M unit :=
  fun w => (Returned tt, mkWorld (environ w) (open_files w) (trace w ++ [e])).

Notation "'let*' x ':=' c 'in' k" := (bind c (fun x => k))
  (at level 10, x name, c at level 200, k at level 200).
Notation "'do' c 'then' k" := (bind c (fun _ => k))
  (at level 10, c at level 200, k at level 200).

(** What a line scan over an open file yields: the lines in order, then
    the error that stopped it, if one did. *)
Record Stream : Type := mkStream {
  lines : list string;
  failure : option error
}.

(** The part of the machine the package only reads: directories, files,
    the YAML parser, and Unicode case folding. *)
Record Host : Type := mkHost {
  dir_entries : string -> error + list string;
  file_bytes : string -> error + string;
  file_lines : string -> error + Stream;
  yaml_Unmarshal : string -> option error;
  unicode_fold : string -> string -> bool
}.

(** ** package os *)

Module os.

Record File : Type := mkFile { Name : string; reader : Stream }.

Definition Getenv (key : string) : M string :=
  fun w => (Returned (default "" (environ w !! key)), w).

Fixpoint has_byte (n : nat) (s : string) : bool :=
  match s with
  | "" => false
  | String c s' => byte_is n c || has_byte n s'
  end.

(** [os.Setenv] refuses an empty key, a key with [=] or NUL and a value
    with NUL. *)
Definition Setenv (key value : string) : M (option error) :=
  do emit (EvSetenv key value) then
  if String.eqb key "" || has_byte 61 key || has_byte 0 key || has_byte 0 value
  then ret (Some (errors.Opaque "setenv: invalid argument"))
  else fun w =>
    (Returned None, mkWorld (<[key := value]> (environ w)) (open_files w) (trace w)).

(** [os.ReadDir]: the entry names in the order the listing gives them. *)
Definition ReadDir (h : Host) (name : string) : M (error + list string) :=
  do emit (EvReadDir name) then ret (dir_entries h name).

Definition ReadFile (h : Host) (name : string) : M (error + string) :=
  do emit (EvReadFile name) then ret (file_bytes h name).

Definition Open (h : Host) (name : string) : M (error + File) :=
  do emit (EvOpen name) then
  match file_lines h name with
  | inl e => ret (inl e)
  | inr st => fun w =>
      (Returned (inr (mkFile name st)),
       mkWorld (environ w) (name :: open_files w) (trace w))
  end.

Fixpoint remove_one (name : string) (l : list string) : list string :=
  match l with
  | [] => []
  | x :: l' => if String.eqb x name then l' else x :: remove_one name l'
  end.

Definition Close (f : File) : M (option error) :=
  do emit (EvClose (Name f)) then
  fun w =>
    (Returned None,
     mkWorld (environ w) (remove_one (Name f) (open_files w)) (trace w)).

End os.

(** ** package bufio *)

Module bufio.

Definition Scanner : Type := Stream.
Definition NewScanner (f : os.File) : Scanner := os.reader f.

End bufio.

(** ** package regexp *)

Module regexp.

(** The fragment of the syntax the two patterns of the package use:
    literals, character classes, greedy [*] and [+] over a class,
    concatenation, greedy [?], and capturing groups (not nested). *)
Inductive node : Type :=
| Lit (c : ascii)
| Class (p : ascii -> bool)
| Star (p : ascii -> bool)
| Plus (p : ascii -> bool)
| Cat (r1 r2 : node)
| Quest (r : node)
| Group (r : node).

(** A compiled pattern: [bol] and [eol] say whether it opens with [^]
    and closes with [$] (end of text: no flag is set). *)
Record Regexp : Type := MustCompile { bol : bool; expr : node; eol : bool }.

Fixpoint take (n : nat) (s : string) : string :=
  match n, s with
  | S n', String c s' => String c (take n' s')
  | _, _ => ""
  end.

(** The text between the position [s] and the later position [rest]. *)
Definition consumed (s rest : string) : string :=
  take (String.length s - String.length rest) s.

Section Run.
Context {R : Type}.

(** Greedy repetition of a class: the longest run first, then shorter
    ones on backtracking. *)
Fixpoint greedy (p : ascii -> bool) (s : string) (caps : list string)
    (k : string -> list string -> option R) : option R :=
  match s with
  | String c s' =>
      if p c then
        match greedy p s' caps k with
        | Some r => Some r
        | None => k s caps
        end
      else k s caps
  | "" => k s caps
  end.

(** Backtracking matcher in continuation style; it explores the
    alternatives in the order of preference of Go's leftmost-first
    semantics.  [caps] collects the text of the groups closed so far. *)
Fixpoint run (r : node) (s : string) (caps : list string)
    (k : string -> list string -> option R) : option R :=
  match r with
  | Lit c =>
      match s with
      | String c' s' => if Ascii.eqb c' c then k s' caps else None
      | "" => None
      end
  | Class p =>
      match s with
      | String c' s' => if p c' then k s' caps else None
      | "" => None
      end
  | Star p => greedy p s caps k
  | Plus p =>
      match s with
      | String c' s' => if p c' then greedy p s' caps k else None
      | "" => None
      end
  | Cat r1 r2 => run r1 s caps (fun s1 caps1 => run r2 s1 caps1 k)
  | Quest r' =>
      match run r' s caps k with
      | Some x => Some x
      | None => k s caps
      end
  | Group r' => run r' s caps (fun s1 caps1 => k s1 (caps1 ++ [consumed s s1]))
  end.
End Run.

(** A match starting exactly at [s]: the matched text followed by the
    groups, and the text left after the match. *)
Definition matchHere (re : Regexp) (at_start : bool) (s : string)
  : option (list string * string) :=
  if bol re && negb at_start then None
  else run (expr re) s []
         (fun rest caps =>
            if eol re && negb (String.eqb rest "") then None
            else Some (consumed s rest :: caps, rest)).

(** The leftmost match in [s]. *)
Fixpoint search (re : Regexp) (at_start : bool) (s : string)
  : option (list string * string) :=
  match matchHere re at_start s with
  | Some m => Some m
  | None =>
      match s with
      | "" => None
      | String _ s' => search re false s'
      end
  end.

Definition MatchString (re : Regexp) (s : string) : bool :=
  match search re true s with Some _ => true | None => false end.

(** The leftmost match and its groups; [[]] stands for [nil]. *)
Definition FindStringSubmatch (re : Regexp) (s : string) : list string :=
  match search re true s with Some (subs, _) => subs | None => [] end.

(** [ReplaceAllStringFunc]: every match, left to right, is replaced by
    what [repl] returns for it; [skip] counts the bytes of the current
    match still to pass over.  The patterns of this package match no
    empty text; an empty match is passed over like no match. *)
Fixpoint replaceAll (re : Regexp) (repl : string -> M string)
    (at_start : bool) (skip : nat) (src : string) : M string :=
  match src with
  | "" => ret ""
  | String c src' =>
      match skip with
      | S n => replaceAll re repl false n src'
      | 0 =>
          match matchHere re at_start src with
          | Some (String m0 m :: _, _) =>
              let* r := repl (String m0 m) in
              let* t := replaceAll re repl false (String.length m) src' in
              ret (r +:+ t)
          | _ =>
              let* t := replaceAll re repl false 0 src' in
              ret (String c t)
          end
      end
  end.

Definition ReplaceAllStringFunc (re : Regexp) (src : string)
    (repl : string -> M string) : M string :=
  replaceAll re repl true 0 src.

End regexp.

(** [list[i]] for a Go slice indexed in range. *)
Definition index (l : list string) (i : nat) : string := nth i l "".

(** ** Version 2: goconfig/config.go and goconfig/errors.go *)

Module V2.

Definition ErrUnmarshalling : error := errors.New "error unmarshalling configuration".
Definition ErrVariableNotFound : error := errors.New "environment variable not found".
Definition ErrUnsupportedExt : error := errors.New "unsupported extension".
Definition ErrReadingFile : error := errors.New "error reading file".
Definition ErrOpenDir : error := errors.New "error opening directory".
Definition ErrOpeningEnvFile : error := errors.New "error opening .env file".
Definition ErrInvalidEnvFormat : error := errors.New "invalid .env format".

Definition excludeExtensions : list string := ["go"].

(** The placeholder pattern, [\${(\w+)}]. *)
Definition regexEnv : regexp.Regexp :=
  regexp.MustCompile false
    (regexp.Cat (regexp.Lit "$")
      (regexp.Cat (regexp.Lit "{")
        (regexp.Cat (regexp.Group (regexp.Plus class_w)) (regexp.Lit "}"))))
    false.

(** The .env line pattern, its items set apart by blanks here:
    [^ \s* ([\w.-]+) \s* = \s* ( .* )? \s* $]. *)
Definition regexEnvFromFile : regexp.Regexp :=
  regexp.MustCompile true
    (regexp.Cat (regexp.Star class_s)
      (regexp.Cat (regexp.Group (regexp.Plus class_key))
        (regexp.Cat (regexp.Star class_s)
          (regexp.Cat (regexp.Lit "=")
            (regexp.Cat (regexp.Star class_s)
              (regexp.Cat (regexp.Quest (regexp.Group (regexp.Star class_dot)))
                (regexp.Star class_s)))))))
    true.

Definition formatError : string := "%w: %v".

(** The deserializer is kept as its verdict on the content; the
    structure it fills is outside the model. *)
(** The deserializer is any Go function: it may return nil or an
    error, panic (a nil function does), and change the world. *)
Record goConfig : Type := mkGoConfig {
  unmarshallFunc : string -> M (option error)
}.

Section WithHost.
Variable h : Host.

(** Replaces the environment variables written [${ENV_VAR}]; panics
    with the name of a variable that is not found. *)
Definition replaceEnvVariables (content : string) : M string :=
  regexp.ReplaceAllStringFunc regexEnv content (fun match_ =>
    let envVar := index (regexp.FindStringSubmatch regexEnv match_) 1 in
    let* env := os.Getenv envVar in
    if String.eqb env ""
    then panic (fmt.Errorf formatError [fmt.Err ErrVariableNotFound; fmt.Str envVar])
    else ret env).

Definition unmarshallYAML (content : string) : M (option error) :=
  match yaml_Unmarshal h content with
  | Some err => ret (Some (fmt.Errorf formatError [fmt.Err ErrUnmarshalling; fmt.Err err]))
  | None => ret None
  end.

Definition NewGoConfig (unmarshallFunc : list (string -> M (option error))) : goConfig :=
  match unmarshallFunc with
  | f :: _ => mkGoConfig f
  | [] => mkGoConfig unmarshallYAML
  end.

(** The [for _, file := range files] loop of [read], with the return
    that follows it. *)
Fixpoint read_files (dir fileName : string) (files : list string)
  : M (error + string) :=
  match files with
  | [] =>
      ret (inl (fmt.Errorf "%w: in profile %v"
                  [fmt.Err ErrUnsupportedExt; fmt.Str fileName]))
  | file :: files' =>
      let '(name, extension, found) := strings.Cut file "." in
      if negb found then read_files dir fileName files'
      else if slices.Contains excludeExtensions extension
      then read_files dir fileName files'
      else if strings.EqualFold (unicode_fold h) name fileName then
        let* r := os.ReadFile h (path.Join dir file) in
        match r with
        | inl _ =>
            ret (inl (fmt.Errorf formatError
                        [fmt.Err ErrReadingFile; fmt.Str fileName]))
        | inr content =>
            let* contentStr := replaceEnvVariables content in
            ret (inr contentStr)
        end
      else read_files dir fileName files'
  end.

Definition read (fileName : string) (basePath : list string)
  : M (error + string) :=
  let dir := match basePath with d :: _ => d | [] => "config" end in
  let* r := os.ReadDir h dir in
  match r with
  | inl _ =>
      ret (inl (fmt.Errorf formatError [fmt.Err ErrOpenDir; fmt.Strs basePath]))
  | inr files => read_files dir fileName files
  end.

(** The call of [g.unmarshallFunc] is recorded in the trace. *)
Definition ParseConfig (g : goConfig) (configName : string)
    (directoryName : list string) : M (option error) :=
  let* r := read configName directoryName in
  match r with
  | inl err => ret (Some err)
  | inr content =>
      do emit (EvUnmarshal content) then
      let* err := unmarshallFunc g content in
      match err with
      | Some e => ret (Some e)
      | None => ret None
      end
  end.

Definition openFile (filePath : string) : M (error + os.File) :=
  let* r := os.Open h filePath in
  match r with
  | inl _ =>
      ret (inl (fmt.Errorf "%w: in %v" [fmt.Err ErrOpeningEnvFile; fmt.Str filePath]))
  | inr file => ret (inr file)
  end.

Definition isCommentOrEmpty (line : string) : bool :=
  strings.HasPrefix line "#" || String.eqb (strings.TrimSpace line) "".

Definition setEnvVarFromLine (re : regexp.Regexp) (line : string)
  : M (option error) :=
  let parts := strings.SplitN line "=" 2 in
  if negb (length parts =? 2)
  then ret (Some (fmt.Errorf formatError [fmt.Err ErrInvalidEnvFormat; fmt.Str line]))
  else if negb (regexp.MatchString re line)
  then ret (Some (fmt.Errorf formatError [fmt.Err ErrInvalidEnvFormat; fmt.Str line]))
  else
    let key := index parts 0 in
    let value := index parts 1 in
    os.Setenv key value.

(** The [for scanner.Scan()] loop of [parseEnvFile]: [Some err] when
    the loop is left by [return err]. *)
Fixpoint scan_lines (lines : list string) : M (option error) :=
  match lines with
  | [] => ret None
  | line :: lines' =>
      if isCommentOrEmpty line then scan_lines lines'
      else
        let* err := setEnvVarFromLine regexEnvFromFile line in
        match err with
        | Some e => ret (Some e)
        | None => scan_lines lines'
        end
  end.

Definition parseEnvFile (scanner : bufio.Scanner) : M (option error) :=
  let* err := scan_lines (lines scanner) in
  match err with
  | Some e => ret (Some e)
  | None =>
      match failure scanner with
      | Some e => ret (Some (fmt.Errorf "error reading .env file: %w" [fmt.Err e]))
      | None => ret None
      end
  end.

(** The [for _, envFile := range envFiles] loop of [LoadEnv]. *)
Fixpoint load_files (dir : string) (envFiles : list string) : M (option error) :=
  match envFiles with
  | [] => ret None
  | envFile :: envFiles' =>
      let filePath := path.Join dir envFile in
      let* r := openFile filePath in
      match r with
      | inl err => ret (Some err)
      | inr file =>
          let scanner := bufio.NewScanner file in
          let* err := parseEnvFile scanner in
          match err with
          | Some e => ret (Some e)
          | None =>
              do os.Close file then
              load_files dir envFiles'
          end
      end
  end.

Definition LoadEnv (g : goConfig) (envFiles : list string) : M (option error) :=
  let dir := "." in
  let envFiles := if length envFiles =? 0 then [".env"] else envFiles in
  load_files dir envFiles.

End WithHost.

End V2.

(** ** Version 1: the single-file package of v1.0.0 *)

Module V1.

Definition supportedExtensions : list string := ["yaml"; "yml"; "json"].

Definition ErrVariableNotFound : string := "environment variable %s not found".
Definition ErrReadingFile : string := "error reading file: %w".
Definition ErrUnmarshalling : string := "error unmarshalling configuration: %v".
Definition ErrUnsupportedExt : string := "unsupported extension %s".
Definition ErrReadingConfig : string := "error reading configuration: %w".
Definition ErrOpeningEnvFile : string := "error opening .env file: %w".
Definition ErrInvalidEnvFormat : string := "invalid .env format on line: %s".

(** [envVarPattern], compiled: [^ \s* ([\w.-]+) \s* = \s* ( .* )? \s* $]
    (items set apart by blanks here). *)
Definition envVarPattern : regexp.Regexp :=
  regexp.MustCompile true
    (regexp.Cat (regexp.Star class_s)
      (regexp.Cat (regexp.Group (regexp.Plus class_key))
        (regexp.Cat (regexp.Star class_s)
          (regexp.Cat (regexp.Lit "=")
            (regexp.Cat (regexp.Star class_s)
              (regexp.Cat (regexp.Quest (regexp.Group (regexp.Star class_dot)))
                (regexp.Star class_s)))))))
    true.

Section WithHost.
Variable h : Host.

(** The package variable [setEnvFunc]; [os.Setenv] unless a test has
    replaced it. *)
Variable setEnvFunc : string -> string -> M (option error).

(** Replaces the environment variables written [${ENV_VAR}]; panics
    with the name of a variable that is not found.  The error
    returned is always nil. *)
Definition replaceEnvVariables (content : string) : M (string * option error) :=
  let re :=
    regexp.MustCompile false
      (regexp.Cat (regexp.Lit "$")
        (regexp.Cat (regexp.Lit "{")
          (regexp.Cat (regexp.Group (regexp.Plus class_w)) (regexp.Lit "}"))))
      false in
  let* s :=
    regexp.ReplaceAllStringFunc re content (fun match_ =>
      let envVar := index (regexp.FindStringSubmatch re match_) 1 in
      let* env := os.Getenv envVar in
      if String.eqb env ""
      then panic (fmt.Errorf ErrVariableNotFound [fmt.Str envVar])
      else ret env) in
  ret (s, None).

(** The [for _, file := range files] loop of [read], with the return
    that follows it. *)
Fixpoint read_files (profile basePath : string) (files : list string)
  : M (error + string) :=
  match files with
  | [] => ret (inl (fmt.Errorf ErrUnsupportedExt [fmt.Str profile]))
  | file :: files' =>
      let '(name, extension, found) := strings.Cut file "." in
      if negb found then read_files profile basePath files'
      else if negb (slices.Contains supportedExtensions extension)
      then read_files profile basePath files'
      else if strings.EqualFold (unicode_fold h) name profile then
        let* r := os.ReadFile h (path.Join basePath file) in
        match r with
        | inl err => ret (inl (fmt.Errorf ErrReadingFile [fmt.Err err]))
        | inr content =>
            let* p := replaceEnvVariables content in
            let contentStr := fst p in
            ret (inr contentStr)
        end
      else read_files profile basePath files'
  end.

Definition read (profile basePath : string) : M (error + string) :=
  let* r := os.ReadDir h basePath in
  match r with
  | inl err => ret (inl err)
  | inr files => read_files profile basePath files
  end.

Definition readConfig (configName : string) (directoryName : list string)
  : M (error + string) :=
  let dir := match directoryName with d :: _ => d | [] => "config" end in
  let* r := read configName dir in
  match r with
  | inl err => ret (inl (fmt.Errorf ErrReadingConfig [fmt.Err err]))
  | inr content => ret (inr content)
  end.

(** The call of [yaml.Unmarshal] is recorded in the trace. *)
Definition unmarshallGeneric (content : string) : M (option error) :=
  do emit (EvUnmarshal content) then
  match yaml_Unmarshal h content with
  | Some err => ret (Some (fmt.Errorf ErrUnmarshalling [fmt.Err err]))
  | None => ret None
  end.

Definition NewConfig (configName : string) (directoryName : list string)
  : M (option error) :=
  let* r := readConfig configName directoryName in
  match r with
  | inl err => ret (Some err)
  | inr content =>
      let* err := unmarshallGeneric content in
      match err with
      | Some e => ret (Some e)
      | None => ret None
      end
  end.

Definition openFile (filePath : string) : M (error + os.File) :=
  let* r := os.Open h filePath in
  match r with
  | inl err => ret (inl (fmt.Errorf ErrOpeningEnvFile [fmt.Err err]))
  | inr file => ret (inr file)
  end.

Definition isCommentOrEmpty (line : string) : bool :=
  strings.HasPrefix line "#" || String.eqb (strings.TrimSpace line) "".

Definition setEnvVarFromLine (re : regexp.Regexp) (line : string)
  : M (option error) :=
  if negb (regexp.MatchString re line)
  then ret (Some (fmt.Errorf ErrInvalidEnvFormat [fmt.Str line]))
  else
    let parts := strings.SplitN line "=" 2 in
    if negb (length parts =? 2)
    then ret (Some (fmt.Errorf ErrInvalidEnvFormat [fmt.Str line]))
    else
      let key := index parts 0 in
      let value := index parts 1 in
      setEnvFunc key value.

(** The [for scanner.Scan()] loop of [parseEnvFile]: [Some err] when
    the loop is left by [return err]. *)
Fixpoint scan_lines (re : regexp.Regexp) (lines : list string) : M (option error) :=
  match lines with
  | [] => ret None
  | line :: lines' =>
      if isCommentOrEmpty line then scan_lines re lines'
      else
        let* err := setEnvVarFromLine re line in
        match err with
        | Some e => ret (Some e)
        | None => scan_lines re lines'
        end
  end.

Definition parseEnvFile (scanner : bufio.Scanner) : M (option error) :=
  let re := envVarPattern in
  let* err := scan_lines re (lines scanner) in
  match err with
  | Some e => ret (Some e)
  | None =>
      match failure scanner with
      | Some e => ret (Some (fmt.Errorf "error reading .env file: %w" [fmt.Err e]))
      | None => ret None
      end
  end.

(** The [for _, envFile := range envFiles] loop of [LoadEnv]. *)
Fixpoint load_files (dir : string) (envFiles : list string) : M (option error) :=
  match envFiles with
  | [] => ret None
  | envFile :: envFiles' =>
      let filePath := path.Join dir envFile in
      let* r := openFile filePath in
      match r with
      | inl err => ret (Some err)
      | inr file =>
          let scanner := bufio.NewScanner file in
          let* err := parseEnvFile scanner in
          match err with
          | Some e => ret (Some e)
          | None =>
              do os.Close file then
              load_files dir envFiles'
          end
      end
  end.

Definition LoadEnv (envFiles : list string) : M (option error) :=
  let dir := "." in
  let envFiles := if length envFiles =? 0 then [".env"] else envFiles in
  load_files dir envFiles.

End WithHost.

End V1.

(** ** A small machine to run the code on *)

(** A directory [conf] with the given entries (name and content), and the
    env files given by name and lines; the parser accepts everything and
    names are compared as ASCII. *)
Definition lookup_assoc {A} (l : list (string * A)) (k : string) : option A :=
  snd <$> List.find (fun p => String.eqb (fst p) k) l.

Definition demo_host (entries : list (string * string))
    (envs : list (string * list string)) : Host :=
  mkHost
    (fun d => if String.eqb d "conf" then inr (map fst entries)
              else inl (errors.Opaque ("open " +:+ d +:+ ": no such file or directory")))
    (fun p => match lookup_assoc (map (fun e => (path.Join "conf" (fst e), snd e)) entries) p with
              | Some c => inr c
              | None => inl (errors.Opaque ("open " +:+ p +:+ ": no such file or directory"))
              end)
    (fun p => match lookup_assoc envs p with
              | Some ls => inr (mkStream ls None)
              | None => inl (errors.Opaque ("open " +:+ p +:+ ": no such file or directory"))
              end)
    (fun _ => None)
    (fun _ _ => false).

Definition world0 : World := mkWorld ∅ [] [].

Definition world_with (vars : list (string * string)) : World :=
  mkWorld (list_to_map vars) [] [].

(** ** Vocabulary of the statements *)

(** A text made of white space only: a sequence of space runes. *)
Inductive WhiteSpace : string -> Prop :=
| WhiteSpace_nil : WhiteSpace ""
| WhiteSpace_rune r s :
    In r strings.spaceRunes -> WhiteSpace s -> WhiteSpace (r +:+ s).

Fixpoint all_bytes (p : ascii -> bool) (s : string) : bool :=
  match s with
  | "" => true
  | String c s' => p c && all_bytes p s'
  end.

(** An identifier: one or more word characters. *)
Definition identifier (name : string) : Prop :=
  name <> "" /\ all_bytes class_w name = true.

(** The placeholder for the variable [name]. *)
Definition placeholder (name : string) : string := "${" +:+ name +:+ "}".

(** [text] holds a placeholder somewhere. *)
Definition has_placeholder (text : string) : Prop :=
  exists before name after,
    identifier name /\ text = before +:+ placeholder name +:+ after.

(** The directory entry [file] is a candidate for the logical name [N]
    under the extension filter [keep]: it has an extension, the filter
    keeps the extension, and its stem equals [N] up to case. *)
Definition candidate (h : Host) (keep : string -> bool) (N file : string) : bool :=
  let '(stem, extension, found) := strings.Cut file "." in
  found && keep extension && strings.EqualFold (unicode_fold h) stem N.

(** The two extension filters. *)
Definition allow_list (extension : string) : bool :=
  slices.Contains V1.supportedExtensions extension.
Definition deny_list (extension : string) : bool :=
  negb (slices.Contains V2.excludeExtensions extension).

(** The [os.ReadFile] calls recorded in a trace. *)
Definition files_read (t : list Event) : list string :=
  omap (fun e => match e with EvReadFile name => Some name | _ => None end) t.

(** The deserializer calls recorded in a trace. *)
Definition unmarshal_calls (t : list Event) : list string :=
  omap (fun e => match e with EvUnmarshal c => Some c | _ => None end) t.

(** The [(key, value)] pairs handed to [os.Setenv], in order. *)
Definition setenv_calls (t : list Event) : list (string * string) :=
  omap (fun e => match e with EvSetenv k v => Some (k, v) | _ => None end) t.

(** The longest prefix of [s] made of bytes of the class [p], and what
    follows it. *)
Fixpoint take_while (p : ascii -> bool) (s : string) : string :=
  match s with
  | String c s' => if p c then String c (take_while p s') else ""
  | "" => ""
  end.

Fixpoint skip_while (p : ascii -> bool) (s : string) : string :=
  match s with
  | String c s' => if p c then skip_while p s' else s
  | "" => ""
  end.

(** The function literal both versions of [replaceEnvVariables] hand to
    [ReplaceAllStringFunc]; [not_found] builds the panic value from the
    variable name. *)
Definition substitute_var (not_found : string -> error) (match_ : string) : M string :=
  let envVar := index (regexp.FindStringSubmatch V2.regexEnv match_) 1 in
  let* env := os.Getenv envVar in
  if String.eqb env "" then panic (not_found envVar) else ret env.

(** The panic values of the two versions. *)
Definition not_found_v2 (envVar : string) : error :=
  fmt.Errorf V2.formatError [fmt.Err V2.ErrVariableNotFound; fmt.Str envVar].
Definition not_found_v1 (envVar : string) : error :=
  fmt.Errorf V1.ErrVariableNotFound [fmt.Str envVar].

(** The value [os.Getenv] sees in the world [w]. *)
Definition getenv (w : World) (key : string) : string :=
  default "" (environ w !! key).

(** Every placeholder of [text] names a variable with a non-empty value. *)
Definition placeholders_set (w : World) (text : string) : Prop :=
  forall before name after,
    identifier name -> text = before +:+ placeholder name +:+ after ->
    getenv w name <> "".

(** The first candidate of a listing, in listing order. *)
Definition first_candidate (h : Host) (keep : string -> bool) (N : string)
    (files : list string) : option string :=
  List.find (candidate h keep N) files.

(** The world [w] with further calls recorded. *)
Definition record (w : World) (events : list Event) : World :=
  mkWorld (environ w) (open_files w) (trace w ++ events).

(** The outcome of the substitution on [content] in the world [w], for
    each version. *)
Definition substitute_v2 (content : string) (w : World) : Outcome string :=
  fst (V2.replaceEnvVariables content w).

Definition substitute_v1 (content : string) (w : World) : Outcome string :=
  match fst (V1.replaceEnvVariables content w) with
  | Returned p => Returned (fst p)
  | Panicked v => Panicked v
  end.

(** What [read] makes of the result [r] of [os.ReadFile] in the world
    [w]: a read error built by [read_error], or the content with its
    placeholders substituted by [substitute]. *)
Definition read_result (read_error : error -> error)
    (substitute : string -> World -> Outcome string) (r : error + string) (w : World)
  : Outcome (error + string) :=
  match r with
  | inl err => Returned (inl (read_error err))
  | inr content =>
      match substitute content w with
      | Returned s => Returned (inr s)
      | Panicked v => Panicked v
      end
  end.

(** The read errors of the two versions. *)
Definition read_error_v2 (N : string) (_ : error) : error :=
  fmt.Errorf V2.formatError [fmt.Err V2.ErrReadingFile; fmt.Str N].
Definition read_error_v1 (err : error) : error :=
  fmt.Errorf V1.ErrReadingFile [fmt.Err err].

(** The world after [os.Open] has opened [name]. *)
Definition opened (name : string) (w : World) : World :=
  mkWorld (environ w) (name :: open_files w) (trace w ++ [EvOpen name]).

(** The error of version 2 for a line that is not an assignment. *)
Definition invalid_line_v2 (line : string) : error :=
  fmt.Errorf V2.formatError [fmt.Err V2.ErrInvalidEnvFormat; fmt.Str line].
Definition invalid_line_v1 (line : string) : error :=
  fmt.Errorf V1.ErrInvalidEnvFormat [fmt.Str line].

(** A host like [h] whose YAML parser gives the verdict [parser]. *)
Definition with_parser (h : Host) (parser : string -> option error) : Host :=
  mkHost (dir_entries h) (file_bytes h) (file_lines h) parser (unicode_fold h).

(** The byte [c] does not occur in [s]. *)
Definition lacks (c : ascii) (s : string) : bool :=
  all_bytes (fun x => negb (Ascii.eqb x c)) s.

(** A line [os.Setenv] can apply: it matches the line pattern, it has an
    [=], and it has no NUL byte. *)
Definition valid_assignment (line : string) : bool :=
  regexp.MatchString V2.regexEnvFromFile line &&
  negb (lacks "=" line) && lacks "000" line.

(** A line feed. *)
Definition nl : string := String "010" "".

(** ** Vocabulary of the further properties *)

(** Two outcomes in sequence: the texts joined, or the first panic. *)
Definition seq_outcome (o1 o2 : Outcome string) : Outcome string :=
  match o1 with
  | Returned a =>
      match o2 with
      | Returned b => Returned (a +:+ b)
      | Panicked v => Panicked v
      end
  | Panicked v => Panicked v
  end.

(** What the substitution makes of the placeholder of [name] in the world
    [w]: the value of the variable, or the panic built by [not_found]. *)
Definition lookup_outcome (not_found : string -> error) (w : World) (name : string)
  : Outcome string :=
  if String.eqb (getenv w name) "" then Panicked (not_found name)
  else Returned (getenv w name).

(** The environment after the assignments of [ls], applied in order;
    comment and blank lines are passed over. *)
Fixpoint assign_all (ls : list string) (env : gmap string string) : gmap string string :=
  match ls with
  | [] => env
  | line :: ls' =>
      if V2.isCommentOrEmpty line then assign_all ls' env
      else
        let '(key, value, _) := strings.Cut line "=" in
        assign_all ls' (<[key := value]> env)
  end.

(** The [os.Setenv] calls the assignments of [ls] make. *)
Fixpoint assign_calls (ls : list string) : list Event :=
  match ls with
  | [] => []
  | line :: ls' =>
      if V2.isCommentOrEmpty line then assign_calls ls'
      else
        let '(key, value, _) := strings.Cut line "=" in
        EvSetenv key value :: assign_calls ls'
  end.

(** The form of an assignment line: a key of one or more characters of
    [[\w.-]], white space allowed around it, then [=] and the rest. *)
Definition assignment_shape (line : string) : Prop :=
  exists ws1 key ws2 rest,
    line = ws1 +:+ key +:+ ws2 +:+ String "=" rest /\
    all_bytes class_s ws1 = true /\
    key <> "" /\ all_bytes class_key key = true /\
    all_bytes class_s ws2 = true.

(** Two runs with the same effect: both return, with nil together, and
    they leave the same world. *)
Definition same_effect (r1 r2 : Outcome (option error) * World) : Prop :=
  snd r1 = snd r2 /\
  exists o1 o2,
    fst r1 = Returned o1 /\ fst r2 = Returned o2 /\ (o1 = None <-> o2 = None).

(** The directory [read] lists: the first of [basePath], or [config]. *)
Definition directory_of (basePath : list string) : string :=
  match basePath with d :: _ => d | [] => "config" end.

(** What a run adds to the deserializer calls: the content [read]
    returned, if it returned one. *)
Definition content_of (o : Outcome (error + string)) : list string :=
  match o with
  | Returned (inr content) => [content]
  | _ => []
  end.

(** ** Vocabulary of the statements, in the words of the specification *)

(** [Expands w text out]: [out] is [text] with every placeholder replaced
    by the value its variable has in the world [w]; the values are put in
    as they are, and every variable named has a value that is not
    empty. *)
Inductive Expands (w : World) : string -> string -> Prop :=
| Expands_plain text :
    ~ has_placeholder text -> Expands w text text
| Expands_placeholder before name after out :
    ~ has_placeholder before -> identifier name -> getenv w name <> "" ->
    Expands w after out ->
    Expands w (before +:+ placeholder name +:+ after)
              (before +:+ getenv w name +:+ out).

(** A text of ASCII bytes. *)
Definition ascii_text (s : string) : Prop :=
  all_bytes (fun c => nat_of_ascii c <? 128) s = true.

(** A text with its upper-case ASCII letters made lower-case. *)
Definition lower_byte (c : ascii) : ascii :=
  if byte_in 65 90 c then ascii_of_nat (nat_of_ascii c + 32) else c.

Fixpoint lower_text (s : string) : string :=
  match s with
  | "" => ""
  | String c s' => String (lower_byte c) (lower_text s')
  end.

(** The entry [file] is one the file location looks for under the name
    [N]: it is a stem, a dot and an extension, the stem has no dot (the
    extension starts at the first dot), the extension policy [keep] lets
    the extension through, and the stem equals [N] but for the case of
    its letters. *)
Definition selected (keep : string -> bool) (N file : string) : Prop :=
  exists stem extension,
    file = stem +:+ String "." extension /\
    lacks "." stem = true /\
    keep extension = true /\
    lower_text stem = lower_text N.

(** ** Strings *)

Lemma sapp_cons c (s t : string) : String c s +:+ t = String c (s +:+ t).
Proof. reflexivity. Qed.

Lemma sapp_nil_l (s : string) : "" +:+ s = s.
Proof. reflexivity. Qed.

Lemma sapp_nil_r (s : string) : s +:+ "" = s.
Proof. induction s as [|c s IH]; [done|]. by rewrite sapp_cons, IH. Qed.

Lemma sapp_assoc (a b c : string) : (a +:+ b) +:+ c = a +:+ (b +:+ c).
Proof. induction a as [|x a IH]; [done|]. by rewrite !sapp_cons, IH. Qed.

Lemma slength_app (a b : string) :
  String.length (a +:+ b) = String.length a + String.length b.
Proof. induction a as [|x a IH]; [done|]. rewrite sapp_cons. simpl. by rewrite IH. Qed.

Lemma ascii_eqb_true a b : Ascii.eqb a b = true <-> a = b.
Proof. apply Ascii.eqb_eq. Qed.

Lemma HasPrefix_spec s p :
  strings.HasPrefix s p = true <-> exists rest, s = p +:+ rest.
Proof.
  revert s. induction p as [|c p IH]; intros s; simpl.
  - split; [intros _; by exists s|reflexivity].
  - destruct s as [|d s].
    + split; [done|]. intros [rest H]. by rewrite sapp_cons in H.
    + rewrite andb_true_iff, Ascii.eqb_eq, IH. split.
      * intros [-> [rest ->]]. by exists rest.
      * intros [rest H]. rewrite sapp_cons in H. injection H as -> ->. eauto.
Qed.

Lemma drop_app p rest : strings.drop (String.length p) (p +:+ rest) = rest.
Proof. induction p as [|c p IH]; [by destruct rest|]. by rewrite sapp_cons. Qed.

(** ** White space *)

Lemma spaceRunes_nonempty r : In r strings.spaceRunes -> r <> "".
Proof.
  intros H ->. revert H. vm_compute. intuition discriminate.
Qed.

Lemma leadingSpace_Some s r :
  strings.leadingSpace s = Some r ->
  In r strings.spaceRunes /\ exists rest, s = r +:+ rest.
Proof.
  unfold strings.leadingSpace. intros H.
  apply find_some in H as [Hin Hp]. split; [done|]. by apply HasPrefix_spec.
Qed.

Lemma leadingSpace_None s r rest :
  strings.leadingSpace s = None -> In r strings.spaceRunes -> s <> r +:+ rest.
Proof.
  unfold strings.leadingSpace. intros H Hin ->.
  pose proof (find_none _ _ H r Hin) as Hn.
  assert (strings.HasPrefix (r +:+ rest) r = true) by (apply HasPrefix_spec; eauto).
  congruence.
Qed.

Lemma leadingSpace_app r rest :
  In r strings.spaceRunes -> strings.leadingSpace (r +:+ rest) = Some r.
Proof.
  intros H.
  repeat (destruct H as [<-|H]; [vm_compute; reflexivity|]).
  destruct H.
Qed.

Lemma trimLeft_decomp fuel s :
  exists ws, WhiteSpace ws /\ s = ws +:+ strings.trimLeft fuel s.
Proof.
  revert s. induction fuel as [|fuel IH]; intros s; simpl.
  - exists "". split; [constructor|done].
  - destruct (strings.leadingSpace s) as [r|] eqn:E.
    + apply leadingSpace_Some in E as [Hin [rest ->]].
      rewrite drop_app. destruct (IH rest) as [ws [Hws Hrest]].
      exists (r +:+ ws). split; [by constructor|].
      by rewrite sapp_assoc, <- Hrest.
    + exists "". split; [constructor|done].
Qed.

Lemma trimLeft_done fuel s :
  String.length s <= fuel ->
  strings.leadingSpace (strings.trimLeft fuel s) = None.
Proof.
  revert s. induction fuel as [|fuel IH]; intros s Hlen; simpl.
  - destruct s; [reflexivity|simpl in Hlen; lia].
  - destruct (strings.leadingSpace s) as [r|] eqn:E; [|done].
    apply leadingSpace_Some in E as [Hin [rest ->]].
    rewrite drop_app. apply IH.
    rewrite slength_app in Hlen.
    pose proof (spaceRunes_nonempty r Hin). destruct r; [done|simpl in Hlen; lia].
Qed.

Lemma trimLeft_WhiteSpace fuel s :
  WhiteSpace s -> String.length s <= fuel -> strings.trimLeft fuel s = "".
Proof.
  intros H. revert fuel. induction H as [|r s Hin Hs IH]; intros fuel Hlen.
  - by destruct fuel.
  - pose proof (spaceRunes_nonempty r Hin) as Hne.
    rewrite slength_app in Hlen.
    destruct fuel as [|fuel]; [destruct r; [done|simpl in Hlen; lia]|].
    simpl. rewrite leadingSpace_app, drop_app by done.
    apply IH. destruct r; [done|simpl in Hlen; lia].
Qed.

Lemma TrimLeftSpace_empty s : strings.TrimLeftSpace s = "" <-> WhiteSpace s.
Proof.
  unfold strings.TrimLeftSpace. split.
  - intros H. destruct (trimLeft_decomp (String.length s) s) as [ws [Hws Hs]].
    rewrite H, sapp_nil_r in Hs. by subst.
  - intros H. by apply trimLeft_WhiteSpace.
Qed.

Lemma TrimLeftSpace_idem s :
  strings.leadingSpace s = None -> strings.TrimLeftSpace s = s.
Proof.
  unfold strings.TrimLeftSpace. intros H.
  destruct (String.length s); simpl; [done|by rewrite H].
Qed.

Lemma TrimRightSpace_empty s :
  strings.TrimRightSpace s = "" -> strings.TrimLeftSpace s = "".
Proof.
  destruct s as [|c s]; [done|]. simpl.
  destruct (String.eqb (strings.TrimLeftSpace (String c s)) "") eqn:E; [|done].
  intros _. by apply String.eqb_eq.
Qed.

(** [strings.TrimSpace] leaves nothing exactly of the texts that are made
    of white space only. *)
Lemma TrimSpace_empty s : strings.TrimSpace s = "" <-> WhiteSpace s.
Proof.
  unfold strings.TrimSpace. split.
  - intros H. apply TrimRightSpace_empty in H.
    rewrite TrimLeftSpace_idem in H
      by (unfold strings.TrimLeftSpace; by apply trimLeft_done).
    by apply TrimLeftSpace_empty.
  - intros H. apply TrimLeftSpace_empty in H. by rewrite H.
Qed.

Lemma isCommentOrEmpty_iff line :
  V2.isCommentOrEmpty line = true <->
  (exists rest, line = String "#" rest) \/ WhiteSpace line.
Proof.
  unfold V2.isCommentOrEmpty.
  rewrite orb_true_iff, HasPrefix_spec, String.eqb_eq, TrimSpace_empty.
  reflexivity.
Qed.

(** C3 (amended): a line of an env file is skipped as a comment or a
    blank exactly when its very first byte is [#] or it is made of white
    space only; every other line, a [#] comment with white space before
    it included, goes on to [setEnvVarFromLine] as a candidate
    assignment. *)
Theorem comment_or_blank_lines line :
  (V1.isCommentOrEmpty line = true <->
     (exists rest, line = String "#" rest) \/ WhiteSpace line) /\
  (V2.isCommentOrEmpty line = true <->
     (exists rest, line = String "#" rest) \/ WhiteSpace line).
Proof. split; apply isCommentOrEmpty_iff. Qed.

(** ** The matcher *)

Lemma take_skip_while p s : s = take_while p s +:+ skip_while p s.
Proof.
  induction s as [|c s IH]; [done|]. simpl.
  destruct (p c); [|done]. by rewrite sapp_cons, <- IH.
Qed.

Lemma all_bytes_take_while p s : all_bytes p (take_while p s) = true.
Proof.
  induction s as [|c s IH]; [done|]. simpl.
  destruct (p c) eqn:E; [|done]. simpl. by rewrite E.
Qed.

Lemma skip_while_stop p w c rest :
  all_bytes p w = true -> p c = false ->
  skip_while p (w +:+ String c rest) = String c rest.
Proof.
  intros Hw Hc. induction w as [|d w IH].
  - rewrite sapp_nil_l. simpl. by rewrite Hc.
  - simpl in Hw. apply andb_true_iff in Hw as [Hd Hw].
    rewrite sapp_cons. simpl. rewrite Hd. auto.
Qed.

Lemma take_while_stop p w c rest :
  all_bytes p w = true -> p c = false ->
  take_while p (w +:+ String c rest) = w.
Proof.
  intros Hw Hc. induction w as [|d w IH].
  - rewrite sapp_nil_l. simpl. by rewrite Hc.
  - simpl in Hw. apply andb_true_iff in Hw as [Hd Hw].
    rewrite sapp_cons. simpl. rewrite Hd. f_equal. auto.
Qed.

(** When the continuation refuses every text that starts with a byte of
    the class, no backtracking happens: the whole run is taken. *)
Lemma greedy_exclusive {R} p s caps (k : string -> list string -> option R) :
  (forall c s', p c = true -> k (String c s') caps = None) ->
  regexp.greedy p s caps k = k (skip_while p s) caps.
Proof.
  intros Hk. induction s as [|c s IH]; [done|]. simpl.
  destruct (p c) eqn:E; [|done].
  rewrite IH. destruct (k (skip_while p s) caps) eqn:Ek; [done|].
  by apply Hk.
Qed.

Lemma take_app a rest :
  regexp.take (String.length a) (a +:+ rest) = a.
Proof. induction a as [|c a IH]; [by destruct rest|]. rewrite sapp_cons. simpl. by rewrite IH. Qed.

Lemma consumed_app a rest : regexp.consumed (a +:+ rest) rest = a.
Proof.
  unfold regexp.consumed. rewrite slength_app.
  replace (String.length a + String.length rest - String.length rest)
    with (String.length a) by lia.
  apply take_app.
Qed.

Lemma class_w_not_brace c : class_w c = true -> Ascii.eqb c "}" = false.
Proof.
  intros H. destruct (Ascii.eqb c "}") eqn:E; [|done].
  apply Ascii.eqb_eq in E. subst. discriminate.
Qed.

Lemma class_w_not_dollar c : class_w c = true -> Ascii.eqb c "$" = false.
Proof.
  intros H. destruct (Ascii.eqb c "$") eqn:E; [|done].
  apply Ascii.eqb_eq in E. subst. discriminate.
Qed.

(** What the placeholder pattern matches at a position: [${], the longest
    run of word characters, which must not be empty, and [}]. *)
Lemma matchHere_regexEnv b s :
  regexp.matchHere V2.regexEnv b s =
  match s with
  | String c0 (String c1 (String c s3)) =>
      if Ascii.eqb c0 "$" && Ascii.eqb c1 "{" && class_w c then
        match skip_while class_w s3 with
        | String c2 rest =>
            if Ascii.eqb c2 "}"
            then Some ([placeholder (String c (take_while class_w s3));
                        String c (take_while class_w s3)], rest)
            else None
        | "" => None
        end
      else None
  | _ => None
  end.
Proof.
  unfold regexp.matchHere. simpl.
  destruct s as [|c0 [|c1 [|c s3]]]; simpl; try done.
  - by destruct (Ascii.eqb c0 "$").
  - destruct (Ascii.eqb c0 "$"); [|done]. by destruct (Ascii.eqb c1 "{").
  - destruct (Ascii.eqb c0 "$") eqn:E0; [|done].
    destruct (Ascii.eqb c1 "{") eqn:E1; [|done].
    destruct (class_w c) eqn:Ec; [|done]. simpl.
    apply Ascii.eqb_eq in E0, E1. subst c0 c1.
    rewrite greedy_exclusive.
    2:{ intros d s' Hd. by rewrite (class_w_not_brace d Hd). }
    pose proof (take_skip_while class_w s3) as Hs3.
    destruct (skip_while class_w s3) as [|c2 rest]; [done|].
    destruct (Ascii.eqb c2 "}") eqn:E2; [|done].
    apply Ascii.eqb_eq in E2. subst c2.
    set (w := take_while class_w s3) in *.
    assert (H1 : regexp.consumed (String "$" (String "{" (String c s3))) rest
                 = placeholder (String c w)).
    { rewrite Hs3.
      replace (String "$" (String "{" (String c (w +:+ String "}" rest))))
        with (placeholder (String c w) +:+ rest).
      - apply consumed_app.
      - unfold placeholder. by rewrite !sapp_assoc. }
    assert (H2 : regexp.consumed (String c s3) (String "}" rest) = String c w).
    { rewrite Hs3 at 1. rewrite <- sapp_cons. apply consumed_app. }
    simpl. by rewrite H1, H2.
Qed.

Lemma identifier_cons name :
  identifier name ->
  exists c w, name = String c w /\ class_w c = true /\ all_bytes class_w w = true.
Proof.
  intros [Hne Hall]. destruct name as [|c w]; [done|].
  simpl in Hall. apply andb_true_iff in Hall as [??]. eauto.
Qed.

Lemma placeholder_cons c w rest :
  placeholder (String c w) +:+ rest =
  String "$" (String "{" (String c (w +:+ String "}" rest))).
Proof. unfold placeholder. by rewrite !sapp_assoc. Qed.

Lemma matchHere_placeholder b name rest :
  identifier name ->
  regexp.matchHere V2.regexEnv b (placeholder name +:+ rest) =
  Some ([placeholder name; name], rest).
Proof.
  intros (c & w & -> & Hc & Hw)%identifier_cons.
  rewrite matchHere_regexEnv, placeholder_cons. simpl. rewrite Hc.
  rewrite skip_while_stop, take_while_stop by done. done.
Qed.

Lemma matchHere_regexEnv_inv b s subs rest :
  regexp.matchHere V2.regexEnv b s = Some (subs, rest) ->
  exists name,
    identifier name /\ s = placeholder name +:+ rest /\ subs = [placeholder name; name].
Proof.
  rewrite matchHere_regexEnv.
  destruct s as [|c0 [|c1 [|c s3]]]; try done.
  destruct (Ascii.eqb c0 "$") eqn:E0; [|done].
  destruct (Ascii.eqb c1 "{") eqn:E1; [|done].
  destruct (class_w c) eqn:Ec; [|done]. simpl.
  pose proof (take_skip_while class_w s3) as Hs3.
  destruct (skip_while class_w s3) as [|c2 rest']; [done|].
  destruct (Ascii.eqb c2 "}") eqn:E2; [|done].
  apply Ascii.eqb_eq in E0, E1, E2. subst. intros [= <- <-].
  exists (String c (take_while class_w s3)). split; [|split; [|done]].
  - split; [done|]. simpl. by rewrite Ec, all_bytes_take_while.
  - rewrite placeholder_cons. by rewrite <- Hs3.
Qed.

Lemma search_matchHere re b s m :
  regexp.matchHere re b s = Some m -> regexp.search re b s = Some m.
Proof. intros H. destruct s; simpl; by rewrite H. Qed.

Lemma FindStringSubmatch_placeholder name :
  identifier name ->
  regexp.FindStringSubmatch V2.regexEnv (placeholder name) = [placeholder name; name].
Proof.
  intros H. unfold regexp.FindStringSubmatch.
  pose proof (matchHere_placeholder true name "" H) as Hm.
  rewrite sapp_nil_r in Hm. by rewrite (search_matchHere _ _ _ _ Hm).
Qed.

(** The callback on a placeholder: the value of the variable, or a panic
    when it is unset or empty; the world is only read. *)
Lemma substitute_var_placeholder not_found name w :
  identifier name ->
  substitute_var not_found (placeholder name) w =
  (if String.eqb (getenv w name) ""
   then Panicked (not_found name) else Returned (getenv w name), w).
Proof.
  intros H. unfold substitute_var.
  rewrite FindStringSubmatch_placeholder by done.
  change (index [placeholder name; name] 1) with name.
  unfold bind, os.Getenv, getenv. cbv beta iota.
  by destruct (String.eqb (default "" (environ w !! name)) "").
Qed.

(** ** The replacement loop *)

Lemma replaceAll_skip re repl m rest :
  regexp.replaceAll re repl false (String.length m) (m +:+ rest) =
  regexp.replaceAll re repl false 0 rest.
Proof.
  induction m as [|c m IH]; [done|]. rewrite sapp_cons. simpl. apply IH.
Qed.

Lemma replaceAll_match re repl b m0 m subs rest rest' :
  regexp.matchHere re b (String m0 m +:+ rest) = Some (String m0 m :: subs, rest') ->
  regexp.replaceAll re repl b 0 (String m0 m +:+ rest) =
  (let* r := repl (String m0 m) in
   let* t := regexp.replaceAll re repl false 0 rest in
   ret (r +:+ t)).
Proof.
  intros H. rewrite sapp_cons in *. simpl. rewrite H.
  by rewrite replaceAll_skip.
Qed.

Lemma replaceAll_placeholder repl b name rest :
  identifier name ->
  regexp.replaceAll V2.regexEnv repl b 0 (placeholder name +:+ rest) =
  (let* r := repl (placeholder name) in
   let* t := regexp.replaceAll V2.regexEnv repl false 0 rest in
   ret (r +:+ t)).
Proof.
  intros H. pose proof (matchHere_placeholder b name rest H) as Hm.
  change (placeholder name) with (String "$" (String "{" (name +:+ "}"))) in *.
  by apply (replaceAll_match _ repl) in Hm.
Qed.

Lemma replaceAll_no_match re repl b c s :
  regexp.matchHere re b (String c s) = None ->
  regexp.replaceAll re repl b 0 (String c s) =
  (let* t := regexp.replaceAll re repl false 0 s in ret (String c t)).
Proof. intros H. cbn [regexp.replaceAll]. by rewrite H. Qed.

(** ** Substitution *)

Lemma replaceEnvVariables_v2 content :
  V2.replaceEnvVariables content =
  regexp.replaceAll V2.regexEnv (substitute_var not_found_v2) true 0 content.
Proof. reflexivity. Qed.

Lemma replaceEnvVariables_v1 content :
  V1.replaceEnvVariables content =
  (let* s := regexp.replaceAll V2.regexEnv (substitute_var not_found_v1) true 0 content in
   ret (s, None)).
Proof. reflexivity. Qed.

Lemma has_placeholder_tail c text :
  has_placeholder text -> has_placeholder (String c text).
Proof.
  intros (before & name & after & Hid & ->).
  exists (String c before), name, after. by rewrite sapp_cons.
Qed.

(** Text without a placeholder is copied as it is, and the world is not
    touched. *)
Lemma replaceAll_identity repl b text w :
  ~ has_placeholder text ->
  regexp.replaceAll V2.regexEnv repl b 0 text w = (Returned text, w).
Proof.
  revert b. induction text as [|c text IH]; intros b Hno; [done|].
  destruct (regexp.matchHere V2.regexEnv b (String c text)) as [[subs rest]|] eqn:E.
  - exfalso. apply matchHere_regexEnv_inv in E as (name & Hid & Hs & _).
    apply Hno. exists "", name, rest. by rewrite sapp_nil_l.
  - rewrite replaceAll_no_match by done. unfold bind.
    rewrite IH; [done|].
    intros H. apply Hno. by apply has_placeholder_tail.
Qed.

(** A match that starts before a placeholder ends before it. *)
Lemma word_before_dollar name b2 x rest :
  all_bytes class_w name = true ->
  b2 +:+ String "$" x = name +:+ String "}" rest ->
  exists b3, b2 = name +:+ String "}" b3 /\ rest = b3 +:+ String "$" x.
Proof.
  revert b2. induction name as [|n name IH]; intros b2 Hall Heq.
  - rewrite sapp_nil_l in Heq. destruct b2 as [|d b2].
    + rewrite sapp_nil_l in Heq. discriminate.
    + rewrite sapp_cons in Heq. injection Heq as -> <-. by exists b2.
  - simpl in Hall. apply andb_true_iff in Hall as [Hn Hall].
    rewrite sapp_cons in Heq. destruct b2 as [|d b2].
    + rewrite sapp_nil_l in Heq. injection Heq as <- _.
      by apply class_w_not_dollar in Hn.
    + rewrite sapp_cons in Heq. injection Heq as -> Heq.
      destruct (IH b2 Hall Heq) as (b3 & -> & ->).
      exists b3. by rewrite sapp_cons.
Qed.

Lemma match_before_placeholder c before Y after name rest :
  identifier name ->
  String c before +:+ placeholder Y +:+ after = placeholder name +:+ rest ->
  exists b3, String c before = placeholder name +:+ b3 /\
             rest = b3 +:+ placeholder Y +:+ after.
Proof.
  intros [_ Hall] Heq.
  change (placeholder Y +:+ after) with (String "$" (String "{" (Y +:+ "}") +:+ after)) in *.
  change (placeholder name +:+ rest)
    with (String "$" (String "{" ((name +:+ "}") +:+ rest))) in Heq.
  rewrite sapp_cons in Heq. injection Heq as -> Heq.
  destruct before as [|d before].
  { rewrite sapp_nil_l in Heq. discriminate. }
  rewrite sapp_cons in Heq. injection Heq as -> Heq.
  rewrite sapp_assoc in Heq.
  destruct (word_before_dollar _ _ _ _ Hall Heq) as (b3 & -> & ->).
  exists b3. split; [|done].
  unfold placeholder. by rewrite !sapp_assoc.
Qed.

Lemma placeholders_set_tail w c text :
  placeholders_set w (String c text) -> placeholders_set w text.
Proof.
  intros H before name after Hid ->.
  apply (H (String c before) name after Hid). by rewrite sapp_cons.
Qed.

Lemma placeholders_set_after w name text :
  placeholders_set w (placeholder name +:+ text) -> placeholders_set w text.
Proof.
  intros H before n after Hid ->.
  apply (H (placeholder name +:+ before) n after Hid). by rewrite !sapp_assoc.
Qed.

Lemma matchHere_regexEnv_any b s :
  regexp.matchHere V2.regexEnv b s = regexp.matchHere V2.regexEnv false s.
Proof. by rewrite !matchHere_regexEnv. Qed.

(** The scan panics at the leftmost placeholder whose variable is unset
    or empty. *)
Lemma replaceAll_panics Y after w :
  identifier Y -> getenv w Y = "" ->
  forall n before, String.length before <= n ->
  exists Z,
    identifier Z /\ getenv w Z = "" /\
    (exists l r, before +:+ placeholder Y +:+ after = l +:+ placeholder Z +:+ r) /\
    (forall nf b,
       regexp.replaceAll V2.regexEnv (substitute_var nf) b 0
         (before +:+ placeholder Y +:+ after) w = (Panicked (nf Z), w)) /\
    (placeholders_set w before -> Z = Y).
Proof.
  intros HY HgY. induction n as [|n IH]; intros before Hlen.
  - destruct before; [|simpl in Hlen; lia]. rewrite sapp_nil_l.
    exists Y. split; [done|]. split; [done|]. split; [by exists "", after|].
    split; [|done]. intros nf b.
    rewrite replaceAll_placeholder by done. unfold bind.
    rewrite substitute_var_placeholder, HgY by done. done.
  - destruct before as [|c before].
    { apply (IH ""). simpl. lia. }
    simpl in Hlen.
    destruct (regexp.matchHere V2.regexEnv false (String c before +:+ placeholder Y +:+ after))
      as [[subs rest]|] eqn:E.
    + apply matchHere_regexEnv_inv in E as (name & Hid & Hs & _).
      destruct (match_before_placeholder _ _ _ _ _ _ Hid Hs) as (b3 & Hb & ->).
      rewrite Hb, sapp_assoc.
      destruct (String.eqb (getenv w name) "") eqn:Eg.
      * apply String.eqb_eq in Eg. exists name.
        split; [done|]. split; [done|].
        split; [by exists "", (b3 +:+ placeholder Y +:+ after)|].
        split.
        { intros nf b. rewrite replaceAll_placeholder by done. unfold bind.
          rewrite substitute_var_placeholder by done. by rewrite Eg. }
        intros Hset. exfalso. apply (Hset "" name b3 Hid); [|done].
        by rewrite sapp_nil_l.
      * assert (String.length b3 <= n) as Hb3.
        { apply (f_equal String.length) in Hb. rewrite slength_app in Hb.
          simpl in Hb. lia. }
        destruct (IH b3 Hb3) as (Z & HZ & HgZ & (l & r & Hlr) & Hrun & Hfirst).
        exists Z. split; [done|]. split; [done|].
        split.
        { exists (placeholder name +:+ l), r. by rewrite Hlr, !sapp_assoc. }
        split.
        { intros nf b. rewrite replaceAll_placeholder by done. unfold bind at 1.
          rewrite substitute_var_placeholder by done. rewrite Eg.
          unfold bind. by rewrite Hrun. }
        intros Hset. apply Hfirst.
        by apply placeholders_set_after in Hset.
    + rewrite sapp_cons in *.
      assert (String.length before <= n) as Hb by lia.
      destruct (IH before Hb) as (Z & HZ & HgZ & (l & r & Hlr) & Hrun & Hfirst).
      exists Z. split; [done|]. split; [done|].
      split.
      { exists (String c l), r. by rewrite Hlr, sapp_cons. }
      split.
      { intros nf b. rewrite replaceAll_no_match by (by rewrite matchHere_regexEnv_any).
        unfold bind. by rewrite Hrun. }
      intros Hset. apply Hfirst. by apply placeholders_set_tail in Hset.
Qed.

(** The substitution only reads the environment. *)
Lemma substitute_var_world nf m w : snd (substitute_var nf m w) = w.
Proof.
  unfold substitute_var, bind, os.Getenv. cbv beta iota.
  by destruct (String.eqb _ "").
Qed.

Lemma substitute_var_env nf m w1 w2 :
  environ w1 = environ w2 ->
  fst (substitute_var nf m w1) = fst (substitute_var nf m w2).
Proof.
  intros H. unfold substitute_var, bind, os.Getenv. cbv beta iota.
  rewrite H. by destruct (String.eqb _ "").
Qed.

Lemma replaceAll_world re nf b k s w :
  snd (regexp.replaceAll re (substitute_var nf) b k s w) = w.
Proof.
  revert b k w. induction s as [|c s IH]; intros b k w; [done|].
  simpl. destruct k as [|k]; [|apply IH].
  destruct (regexp.matchHere re b (String c s)) as [[[|[|m0 m] subs] rest]|].
  - unfold bind. specialize (IH false 0 w).
    by destruct (regexp.replaceAll re (substitute_var nf) false 0 s w) as [[] ?].
  - unfold bind. specialize (IH false 0 w).
    by destruct (regexp.replaceAll re (substitute_var nf) false 0 s w) as [[] ?].
  - unfold bind.
    pose proof (substitute_var_world nf (String m0 m) w) as Hw.
    destruct (substitute_var nf (String m0 m) w) as [[r|v] w1]; simpl in Hw; subst w1; [|done].
    specialize (IH false (String.length m) w).
    by destruct (regexp.replaceAll re (substitute_var nf) false (String.length m) s w) as [[] ?].
  - unfold bind. specialize (IH false 0 w).
    by destruct (regexp.replaceAll re (substitute_var nf) false 0 s w) as [[] ?].
Qed.

Lemma replaceAll_env re nf b k s w1 w2 :
  environ w1 = environ w2 ->
  fst (regexp.replaceAll re (substitute_var nf) b k s w1) =
  fst (regexp.replaceAll re (substitute_var nf) b k s w2).
Proof.
  intros He. revert b k. induction s as [|c s IH]; intros b k; [done|].
  simpl. destruct k as [|k]; [|apply IH].
  assert (Hcopy : forall k',
    fst (bind (regexp.replaceAll re (substitute_var nf) false k' s)
           (fun t => ret (String c t)) w1) =
    fst (bind (regexp.replaceAll re (substitute_var nf) false k' s)
           (fun t => ret (String c t)) w2)).
  { intros k'. unfold bind. specialize (IH false k').
    destruct (regexp.replaceAll re (substitute_var nf) false k' s w1) as [[] ?],
             (regexp.replaceAll re (substitute_var nf) false k' s w2) as [[] ?];
      simpl in *; congruence. }
  destruct (regexp.matchHere re b (String c s)) as [[[|[|m0 m] subs] rest]|];
    try apply Hcopy.
  unfold bind.
  pose proof (substitute_var_world nf (String m0 m) w1) as Hw1.
  pose proof (substitute_var_world nf (String m0 m) w2) as Hw2.
  pose proof (substitute_var_env nf (String m0 m) w1 w2 He) as Hf.
  destruct (substitute_var nf (String m0 m) w1) as [[r1|v1] w1'],
           (substitute_var nf (String m0 m) w2) as [[r2|v2] w2'];
    simpl in *; subst; try congruence.
  injection Hf as ->.
  specialize (IH false (String.length m)).
  destruct (regexp.replaceAll re (substitute_var nf) false (String.length m) s w1) as [[] ?],
           (regexp.replaceAll re (substitute_var nf) false (String.length m) s w2) as [[] ?];
    simpl in *; congruence.
Qed.

(** ** Locating the file *)

Lemma record_nil w : record w [] = w.
Proof. destruct w. unfold record. simpl. by rewrite app_nil_r. Qed.

Lemma record_record w l1 l2 : record (record w l1) l2 = record w (l1 ++ l2).
Proof. unfold record. simpl. by rewrite <- app_assoc. Qed.

Lemma candidate_eq h keep N file :
  candidate h keep N file =
  let '(stem, extension, found) := strings.Cut file "." in
  found && keep extension && strings.EqualFold (unicode_fold h) stem N.
Proof. reflexivity. Qed.

(** One turn of the loop of [read], version 2. *)
Lemma V2_read_files_skip h dir N file files :
  candidate h deny_list N file = false ->
  V2.read_files h dir N (file :: files) = V2.read_files h dir N files.
Proof.
  rewrite candidate_eq. unfold deny_list.
  change (V2.read_files h dir N (file :: files)) with
    (let '(name, extension, found) := strings.Cut file "." in
     if negb found then V2.read_files h dir N files
     else if slices.Contains V2.excludeExtensions extension
     then V2.read_files h dir N files
     else if strings.EqualFold (unicode_fold h) name N then
       let* r := os.ReadFile h (path.Join dir file) in
       match r with
       | inl _ =>
           ret (inl (fmt.Errorf V2.formatError [fmt.Err V2.ErrReadingFile; fmt.Str N]))
       | inr content =>
           let* contentStr := V2.replaceEnvVariables content in
           ret (inr contentStr)
       end
     else V2.read_files h dir N files).
  destruct (strings.Cut file ".") as [[stem ext] found].
  destruct found, (slices.Contains V2.excludeExtensions ext),
    (strings.EqualFold (unicode_fold h) stem N); cbn [negb andb]; done.
Qed.

Lemma V2_read_files_hit h dir N file files :
  candidate h deny_list N file = true ->
  V2.read_files h dir N (file :: files) =
  (let* r := os.ReadFile h (path.Join dir file) in
   match r with
   | inl _ =>
       ret (inl (fmt.Errorf V2.formatError [fmt.Err V2.ErrReadingFile; fmt.Str N]))
   | inr content =>
       let* contentStr := V2.replaceEnvVariables content in
       ret (inr contentStr)
   end).
Proof.
  rewrite candidate_eq. unfold deny_list.
  change (V2.read_files h dir N (file :: files)) with
    (let '(name, extension, found) := strings.Cut file "." in
     if negb found then V2.read_files h dir N files
     else if slices.Contains V2.excludeExtensions extension
     then V2.read_files h dir N files
     else if strings.EqualFold (unicode_fold h) name N then
       let* r := os.ReadFile h (path.Join dir file) in
       match r with
       | inl _ =>
           ret (inl (fmt.Errorf V2.formatError [fmt.Err V2.ErrReadingFile; fmt.Str N]))
       | inr content =>
           let* contentStr := V2.replaceEnvVariables content in
           ret (inr contentStr)
       end
     else V2.read_files h dir N files).
  destruct (strings.Cut file ".") as [[stem ext] found].
  destruct found, (slices.Contains V2.excludeExtensions ext),
    (strings.EqualFold (unicode_fold h) stem N); cbn [negb andb]; done.
Qed.

Lemma V1_read_files_skip h N dir file files :
  candidate h allow_list N file = false ->
  V1.read_files h N dir (file :: files) = V1.read_files h N dir files.
Proof.
  rewrite candidate_eq. unfold allow_list.
  change (V1.read_files h N dir (file :: files)) with
    (let '(name, extension, found) := strings.Cut file "." in
     if negb found then V1.read_files h N dir files
     else if negb (slices.Contains V1.supportedExtensions extension)
     then V1.read_files h N dir files
     else if strings.EqualFold (unicode_fold h) name N then
       let* r := os.ReadFile h (path.Join dir file) in
       match r with
       | inl err => ret (inl (fmt.Errorf V1.ErrReadingFile [fmt.Err err]))
       | inr content =>
           let* p := V1.replaceEnvVariables content in
           ret (inr (fst p))
       end
     else V1.read_files h N dir files).
  destruct (strings.Cut file ".") as [[stem ext] found].
  destruct found, (slices.Contains V1.supportedExtensions ext),
    (strings.EqualFold (unicode_fold h) stem N); cbn [negb andb]; done.
Qed.

Lemma V1_read_files_hit h N dir file files :
  candidate h allow_list N file = true ->
  V1.read_files h N dir (file :: files) =
  (let* r := os.ReadFile h (path.Join dir file) in
   match r with
   | inl err => ret (inl (fmt.Errorf V1.ErrReadingFile [fmt.Err err]))
   | inr content =>
       let* p := V1.replaceEnvVariables content in
       ret (inr (fst p))
   end).
Proof.
  rewrite candidate_eq. unfold allow_list.
  change (V1.read_files h N dir (file :: files)) with
    (let '(name, extension, found) := strings.Cut file "." in
     if negb found then V1.read_files h N dir files
     else if negb (slices.Contains V1.supportedExtensions extension)
     then V1.read_files h N dir files
     else if strings.EqualFold (unicode_fold h) name N then
       let* r := os.ReadFile h (path.Join dir file) in
       match r with
       | inl err => ret (inl (fmt.Errorf V1.ErrReadingFile [fmt.Err err]))
       | inr content =>
           let* p := V1.replaceEnvVariables content in
           ret (inr (fst p))
       end
     else V1.read_files h N dir files).
  destruct (strings.Cut file ".") as [[stem ext] found].
  destruct found, (slices.Contains V1.supportedExtensions ext),
    (strings.EqualFold (unicode_fold h) stem N); cbn [negb andb]; done.
Qed.

(** The substitution run inside [read]: its outcome is the one in the
    caller's world, and it leaves the world as it is. *)
Lemma V2_substitute_run content w events :
  V2.replaceEnvVariables content (record w events) =
  (fst (V2.replaceEnvVariables content w), record w events).
Proof.
  rewrite replaceEnvVariables_v2.
  rewrite (surjective_pairing (regexp.replaceAll _ _ _ _ _ (record w events))).
  by rewrite replaceAll_world, (replaceAll_env _ _ _ _ _ (record w events) w).
Qed.

Lemma V1_substitute_run content w events :
  V1.replaceEnvVariables content (record w events) =
  (fst (V1.replaceEnvVariables content w), record w events).
Proof.
  rewrite replaceEnvVariables_v1. unfold bind, ret.
  set (run := regexp.replaceAll V2.regexEnv (substitute_var not_found_v1) true 0 content).
  pose proof (replaceAll_world V2.regexEnv not_found_v1 true 0 content (record w events)) as Hw.
  pose proof (replaceAll_env V2.regexEnv not_found_v1 true 0 content (record w events) w eq_refl) as He.
  fold run in Hw, He.
  destruct (run (record w events)) as [[a1|v1] w1], (run w) as [[a2|v2] w2];
    simpl in *; subst; try congruence.
Qed.

(** The whole loop, version 2: the first candidate of the listing is
    read, and nothing else. *)
Lemma V2_read_files_run h dir N files w :
  V2.read_files h dir N files w =
  match first_candidate h deny_list N files with
  | None =>
      (Returned (inl (fmt.Errorf "%w: in profile %v" [fmt.Err V2.ErrUnsupportedExt; fmt.Str N])),
       w)
  | Some f =>
      (read_result (read_error_v2 N) substitute_v2 (file_bytes h (path.Join dir f)) w,
       record w [EvReadFile (path.Join dir f)])
  end.
Proof.
  unfold first_candidate. induction files as [|file files IH]; [done|].
  simpl List.find. destruct (candidate h deny_list N file) eqn:E.
  - rewrite V2_read_files_hit by done.
    unfold os.ReadFile, bind, emit, ret. simpl.
    destruct (file_bytes h (path.Join dir file)) as [err|content]; [done|].
    change (mkWorld (environ w) (open_files w) (trace w ++ [EvReadFile (path.Join dir file)]))
      with (record w [EvReadFile (path.Join dir file)]).
    rewrite V2_substitute_run. unfold read_result, substitute_v2.
    by destruct (fst (V2.replaceEnvVariables content w)).
  - by rewrite V2_read_files_skip.
Qed.

Lemma V1_read_files_run h N dir files w :
  V1.read_files h N dir files w =
  match first_candidate h allow_list N files with
  | None => (Returned (inl (fmt.Errorf V1.ErrUnsupportedExt [fmt.Str N])), w)
  | Some f =>
      (read_result read_error_v1 substitute_v1 (file_bytes h (path.Join dir f)) w,
       record w [EvReadFile (path.Join dir f)])
  end.
Proof.
  unfold first_candidate. induction files as [|file files IH]; [done|].
  simpl List.find. destruct (candidate h allow_list N file) eqn:E.
  - rewrite V1_read_files_hit by done.
    unfold os.ReadFile, bind, emit, ret. simpl.
    destruct (file_bytes h (path.Join dir file)) as [err|content]; [done|].
    change (mkWorld (environ w) (open_files w) (trace w ++ [EvReadFile (path.Join dir file)]))
      with (record w [EvReadFile (path.Join dir file)]).
    rewrite V1_substitute_run. unfold read_result, substitute_v1.
    by destruct (fst (V1.replaceEnvVariables content w)).
  - by rewrite V1_read_files_skip.
Qed.



(** [read], version 2. *)
Lemma V2_read_run_any h N basePath w :
  let dir := match basePath with d :: _ => d | [] => "config" end in
  V2.read h N basePath w =
  match dir_entries h dir with
  | inl _ =>
      (Returned (inl (fmt.Errorf V2.formatError [fmt.Err V2.ErrOpenDir; fmt.Strs basePath])),
       record w [EvReadDir dir])
  | inr files =>
      match first_candidate h deny_list N files with
      | None =>
          (Returned (inl (fmt.Errorf "%w: in profile %v"
                            [fmt.Err V2.ErrUnsupportedExt; fmt.Str N])),
           record w [EvReadDir dir])
      | Some f =>
          (read_result (read_error_v2 N) substitute_v2 (file_bytes h (path.Join dir f)) w,
           record w [EvReadDir dir; EvReadFile (path.Join dir f)])
      end
  end.
Proof.
  intros dir. unfold V2.read, os.ReadDir, bind, emit, ret. cbv beta iota. fold dir.
  change (mkWorld (environ w) (open_files w) (trace w ++ [EvReadDir dir]))
    with (record w [EvReadDir dir]).
  destruct (dir_entries h dir) as [err|files]; [done|].
  rewrite V2_read_files_run.
  destruct (first_candidate h deny_list N files) as [f|]; [|done].
  rewrite record_record. f_equal.
  destruct (file_bytes h (path.Join dir f)) as [|c]; [done|].
  unfold read_result, substitute_v2. by rewrite V2_substitute_run.
Qed.


Lemma V1_read_run h N dir w :
  V1.read h N dir w =
  match dir_entries h dir with
  | inl err => (Returned (inl err), record w [EvReadDir dir])
  | inr files =>
      match first_candidate h allow_list N files with
      | None =>
          (Returned (inl (fmt.Errorf V1.ErrUnsupportedExt [fmt.Str N])),
           record w [EvReadDir dir])
      | Some f =>
          (read_result read_error_v1 substitute_v1 (file_bytes h (path.Join dir f)) w,
           record w [EvReadDir dir; EvReadFile (path.Join dir f)])
      end
  end.
Proof.
  unfold V1.read, os.ReadDir, bind, emit, ret. cbv beta iota.
  change (mkWorld (environ w) (open_files w) (trace w ++ [EvReadDir dir]))
    with (record w [EvReadDir dir]).
  destruct (dir_entries h dir) as [err|files]; [done|].
  rewrite V1_read_files_run.
  destruct (first_candidate h allow_list N files) as [f|]; [|done].
  rewrite record_record. f_equal.
  destruct (file_bytes h (path.Join dir f)) as [|c]; [done|].
  unfold read_result, substitute_v1. by rewrite V1_substitute_run.
Qed.

Lemma files_read_record w events :
  files_read (trace (record w events)) = files_read (trace w) ++ files_read events.
Proof. unfold files_read, record. simpl. apply omap_app. Qed.



(** The pattern finds a placeholder wherever there is one. *)
Lemma search_finds_placeholder b text :
  has_placeholder text -> regexp.search V2.regexEnv b text <> None.
Proof.
  intros (before & name & after & Hid & ->). revert b.
  induction before as [|c before IH]; intros b.
  - rewrite sapp_nil_l.
    by rewrite (search_matchHere _ _ _ _ (matchHere_placeholder b name after Hid)).
  - rewrite sapp_cons. simpl.
    destruct (regexp.matchHere V2.regexEnv b _); [done|]. apply IH.
Qed.

Lemma search_placeholder b text m :
  regexp.search V2.regexEnv b text = Some m -> has_placeholder text.
Proof.
  revert b. induction text as [|c text IH]; intros b; simpl.
  - intros H. by destruct b.
  - destruct (regexp.matchHere V2.regexEnv b (String c text)) as [[subs rest]|] eqn:E.
    + intros _. apply matchHere_regexEnv_inv in E as (name & Hid & -> & _).
      exists "", name, rest. by rewrite sapp_nil_l.
    + intros H. apply has_placeholder_tail. by apply (IH false).
Qed.

(** The pattern matches somewhere in a text exactly when the text holds a
    placeholder. *)
Lemma has_placeholder_iff text :
  has_placeholder text <-> regexp.MatchString V2.regexEnv text = true.
Proof.
  unfold regexp.MatchString. split.
  - intros H%(search_finds_placeholder true).
    by destruct (regexp.search V2.regexEnv true text).
  - destruct (regexp.search V2.regexEnv true text) as [m|] eqn:E; [|done].
    intros _. by apply (search_placeholder true text m).
Qed.

Lemma no_match_no_placeholder text :
  regexp.MatchString V2.regexEnv text = false -> ~ has_placeholder text.
Proof.
  unfold regexp.MatchString. intros H Hp.
  apply (search_finds_placeholder true) in Hp.
  by destruct (regexp.search V2.regexEnv true text).
Qed.


Lemma Contains_In l x : slices.Contains l x = true <-> In x l.
Proof.
  induction l as [|y l IH]; simpl; [split; [done|tauto]|].
  rewrite orb_true_iff, String.eqb_eq, IH. tauto.
Qed.

(** C10: the extension filter compares the extension byte for byte
    while the stem is compared up to case: with the allow list
    [app.YAML] is passed over although [APP.yaml] is read for the name
    [app], and with the deny list [main.GO] is read although [main.go]
    is passed over. *)
Theorem extension_filter_is_case_sensitive h dir files w :
  (forall ext, allow_list ext = true <-> ext = "yaml" \/ ext = "yml" \/ ext = "json") /\
  (forall ext, deny_list ext = false <-> ext = "go") /\
  V1.read_files h "app" dir ("app.YAML" :: files) w =
    V1.read_files h "app" dir files w /\
  V1.read_files h "app" dir ("APP.yaml" :: files) w =
    (read_result read_error_v1 substitute_v1 (file_bytes h (path.Join dir "APP.yaml")) w,
     record w [EvReadFile (path.Join dir "APP.yaml")]) /\
  V2.read_files h dir "main" ("main.GO" :: files) w =
    (read_result (read_error_v2 "main") substitute_v2 (file_bytes h (path.Join dir "main.GO")) w,
     record w [EvReadFile (path.Join dir "main.GO")]) /\
  V2.read_files h dir "main" ("main.go" :: files) w =
    V2.read_files h dir "main" files w.
Proof.
  split; [|split; [|split; [|split; [|split]]]].
  - intros ext. unfold allow_list. rewrite Contains_In. simpl. intuition congruence.
  - intros ext. unfold deny_list. rewrite negb_false_iff, Contains_In. simpl.
    intuition congruence.
  - by rewrite V1_read_files_skip.
  - rewrite V1_read_files_run. by replace (first_candidate h allow_list "app" ("APP.yaml" :: files))
      with (Some "APP.yaml").
  - rewrite V2_read_files_run. by replace (first_candidate h deny_list "main" ("main.GO" :: files))
      with (Some "main.GO").
  - by rewrite V2_read_files_skip.
Qed.

(** ** Deserialization *)

Lemma unmarshal_calls_record w events :
  unmarshal_calls (trace (record w events)) =
  unmarshal_calls (trace w) ++ unmarshal_calls events.
Proof. unfold unmarshal_calls, record. simpl. apply omap_app. Qed.

(** [read] never calls the deserializer. *)
Lemma V2_read_no_unmarshal h N basePath w :
  unmarshal_calls (trace (snd (V2.read h N basePath w))) = unmarshal_calls (trace w).
Proof.
  rewrite V2_read_run_any.
  destruct (dir_entries h _) as [|files];
    [|destruct (first_candidate h deny_list N files)];
    cbn [snd]; rewrite unmarshal_calls_record; simpl; by rewrite app_nil_r.
Qed.

Lemma V2_ParseConfig_run h g N basePath w :
  V2.ParseConfig h g N basePath w =
  match V2.read h N basePath w with
  | (Returned (inl err), w') => (Returned (Some err), w')
  | (Returned (inr content), w') =>
      V2.unmarshallFunc g content (record w' [EvUnmarshal content])
  | (Panicked v, w') => (Panicked v, w')
  end.
Proof.
  unfold V2.ParseConfig, bind.
  destruct (V2.read h N basePath w) as [[[err|content]|v] w']; try done.
  unfold emit, ret. cbv beta iota. unfold record.
  by destruct (V2.unmarshallFunc g content _) as [[[e|]|v] w''].
Qed.

Lemma Errorf_wrap_error sentinel err :
  fmt.Errorf V2.formatError [fmt.Err sentinel; fmt.Err err] =
  errors.Wrap (errors.Error sentinel +:+ ": " +:+ errors.Error err) sentinel.
Proof.
  unfold fmt.Errorf, V2.formatError. cbn [fmt.render fmt.show Ascii.eqb].
  simpl. by rewrite sapp_nil_r.
Qed.

Lemma Errorf_wrap_string sentinel s :
  fmt.Errorf V2.formatError [fmt.Err sentinel; fmt.Str s] =
  errors.Wrap (errors.Error sentinel +:+ ": " +:+ s) sentinel.
Proof.
  unfold fmt.Errorf, V2.formatError. cbn [fmt.render fmt.show Ascii.eqb].
  simpl. by rewrite sapp_nil_r.
Qed.

(** C7 (amended): when the configured deserializer rejects the content,
    [ParseConfig] returns the error of the deserializer as it is, after
    calling it exactly once: the outcome and the world of [ParseConfig]
    are those of one call of the deserializer, made in the world [read]
    left, with the call recorded.  With the default deserializer that
    error is [ErrUnmarshalling] wrapped with the text of the parser's
    error. *)
Theorem deserializer_error_is_returned h g N basePath w content e :
  fst (V2.read h N basePath w) = Returned (inr content) ->
  fst (V2.unmarshallFunc g content
         (record (snd (V2.read h N basePath w)) [EvUnmarshal content])) =
    Returned (Some e) ->
  fst (V2.ParseConfig h g N basePath w) = Returned (Some e) /\
  snd (V2.ParseConfig h g N basePath w) =
    snd (V2.unmarshallFunc g content
           (record (snd (V2.read h N basePath w)) [EvUnmarshal content])) /\
  unmarshal_calls (trace (record (snd (V2.read h N basePath w)) [EvUnmarshal content])) =
    unmarshal_calls (trace w) ++ [content] /\
  (forall perr,
     g = V2.NewGoConfig h [] -> yaml_Unmarshal h content = Some perr ->
     e = errors.Wrap ("error unmarshalling configuration: " +:+ errors.Error perr)
           V2.ErrUnmarshalling /\
     errors.Is e "error unmarshalling configuration" = true /\
     unmarshal_calls (trace (snd (V2.ParseConfig h g N basePath w))) =
       unmarshal_calls (trace w) ++ [content]).
Proof.
  intros Hread Hg. rewrite V2_ParseConfig_run.
  pose proof (V2_read_no_unmarshal h N basePath w) as Hcalls.
  destruct (V2.read h N basePath w) as [o w']. simpl in Hread, Hcalls, Hg. subst o.
  cbn [fst snd]. rewrite unmarshal_calls_record, Hcalls.
  split; [done|]. split; [done|]. split; [done|].
  intros perr -> Hy. cbn [V2.NewGoConfig V2.unmarshallFunc] in *.
  unfold V2.unmarshallYAML in *. rewrite Hy in *. unfold ret in *. cbn [fst snd] in *.
  injection Hg as <-. rewrite Errorf_wrap_error, unmarshal_calls_record, Hcalls. done.
Qed.

(** ** Lines of an env file *)

Lemma Cut_app key value sep :
  lacks sep key = true ->
  strings.Cut (key +:+ String sep value) sep = (key, value, true).
Proof.
  unfold lacks. induction key as [|c key IH]; intros H.
  - rewrite sapp_nil_l. simpl. by rewrite Ascii.eqb_refl.
  - simpl in H. apply andb_true_iff in H as [Hc H].
    rewrite sapp_cons. simpl. apply negb_true_iff in Hc. rewrite Hc.
    by rewrite IH.
Qed.

Lemma Cut_found s sep before after :
  strings.Cut s sep = (before, after, true) ->
  s = before +:+ String sep after /\
  lacks sep before = true.
Proof.
  unfold lacks. revert before. induction s as [|c s IH]; intros before; simpl; [done|].
  destruct (Ascii.eqb c sep) eqn:E.
  - apply Ascii.eqb_eq in E as ->. intros [= <- <-]. by rewrite sapp_nil_l.
  - destruct (strings.Cut s sep) as [[b a] f]. intros [= <- <- ->].
    destruct (IH b eq_refl) as [-> Hb]. split; [by rewrite sapp_cons|].
    simpl. by rewrite E, Hb.
Qed.

Lemma Cut_not_found s sep before after :
  strings.Cut s sep = (before, after, false) ->
  forall key value, s <> key +:+ String sep value.
Proof.
  revert before. induction s as [|c s IH]; intros before; simpl.
  - intros _ [|??] ?; by rewrite ?sapp_nil_l, ?sapp_cons.
  - destruct (Ascii.eqb c sep) eqn:E; [done|].
    destruct (strings.Cut s sep) as [[b a] f]. intros [= <- <- ->].
    intros [|d key] value.
    + rewrite sapp_nil_l. intros [= -> _]. by rewrite Ascii.eqb_refl in E.
    + rewrite sapp_cons. intros [= -> Hs]. by apply (IH b eq_refl key value).
Qed.

Lemma SplitN_2 s sep :
  strings.SplitN s sep 2 =
  match strings.Cut s sep with
  | (before, after, true) => [before; after]
  | _ => [s]
  end.
Proof. reflexivity. Qed.

Lemma V2_setEnvVarFromLine_accept re key value :
  lacks "=" key = true ->
  regexp.MatchString re (key +:+ String "=" value) = true ->
  V2.setEnvVarFromLine re (key +:+ String "=" value) = os.Setenv key value.
Proof.
  intros Hk Hm. unfold V2.setEnvVarFromLine.
  by rewrite SplitN_2, Cut_app, Hm.
Qed.

Lemma V1_setEnvVarFromLine_accept setEnvFunc re key value :
  lacks "=" key = true ->
  regexp.MatchString re (key +:+ String "=" value) = true ->
  V1.setEnvVarFromLine setEnvFunc re (key +:+ String "=" value) = setEnvFunc key value.
Proof.
  intros Hk Hm. unfold V1.setEnvVarFromLine.
  by rewrite SplitN_2, Cut_app, Hm.
Qed.

Lemma V2_setEnvVarFromLine_cases re line :
  (exists key value,
     line = key +:+ String "=" value /\
     lacks "=" key = true /\
     regexp.MatchString re line = true /\
     V2.setEnvVarFromLine re line = os.Setenv key value) \/
  (((forall key value, line <> key +:+ String "=" value) \/
    regexp.MatchString re line = false) /\
   V2.setEnvVarFromLine re line = ret (Some (invalid_line_v2 line))).
Proof.
  unfold V2.setEnvVarFromLine. rewrite SplitN_2.
  destruct (strings.Cut line "=") as [[key value] found] eqn:E.
  destruct found.
  - apply Cut_found in E as [-> Hk].
    destruct (regexp.MatchString re _) eqn:Em.
    + left. by exists key, value.
    + right. split; [by right|]. done.
  - right. split; [|done]. left. by eapply Cut_not_found.
Qed.

Lemma V1_setEnvVarFromLine_cases setEnvFunc re line :
  (exists key value,
     line = key +:+ String "=" value /\
     lacks "=" key = true /\
     regexp.MatchString re line = true /\
     V1.setEnvVarFromLine setEnvFunc re line = setEnvFunc key value) \/
  (((forall key value, line <> key +:+ String "=" value) \/
    regexp.MatchString re line = false) /\
   V1.setEnvVarFromLine setEnvFunc re line = ret (Some (invalid_line_v1 line))).
Proof.
  unfold V1.setEnvVarFromLine. rewrite SplitN_2.
  destruct (regexp.MatchString re line) eqn:Em.
  - destruct (strings.Cut line "=") as [[key value] found] eqn:E.
    destruct found.
    + apply Cut_found in E as [-> Hk]. left. by exists key, value.
    + right. split; [|done]. left. by eapply Cut_not_found.
  - right. split; [by right|done].
Qed.

(** C9: for a line the loader accepts, the setter is called with the
    text before the first [=] as the key and the text after it as the
    value, byte for byte. *)
Theorem setter_receives_untrimmed_parts setEnvFunc key value :
  lacks "=" key = true ->
  regexp.MatchString V2.regexEnvFromFile (key +:+ String "=" value) = true ->
  V1.setEnvVarFromLine setEnvFunc V1.envVarPattern (key +:+ String "=" value) =
    setEnvFunc key value /\
  V2.setEnvVarFromLine V2.regexEnvFromFile (key +:+ String "=" value) =
    os.Setenv key value.
Proof.
  intros Hk Hm. split.
  - by apply V1_setEnvVarFromLine_accept.
  - by apply V2_setEnvVarFromLine_accept.
Qed.

Lemma setter_receives_untrimmed_parts_witness :
  lacks "=" "FOO " = true /\
  regexp.MatchString V2.regexEnvFromFile "FOO =bar" = true /\
  V1.setEnvVarFromLine os.Setenv V1.envVarPattern "FOO =bar" = os.Setenv "FOO " "bar" /\
  V2.setEnvVarFromLine V2.regexEnvFromFile "FOO =bar" = os.Setenv "FOO " "bar" /\
  setenv_calls (trace (snd (V2.setEnvVarFromLine V2.regexEnvFromFile "FOO =bar" world0))) =
    [("FOO ", "bar")] /\
  getenv (snd (V2.setEnvVarFromLine V2.regexEnvFromFile "FOO =bar" world0)) "FOO " = "bar" /\
  getenv (snd (V2.setEnvVarFromLine V2.regexEnvFromFile "FOO =bar" world0)) "FOO" = "".
Proof.
  split; [reflexivity|]. split; [reflexivity|].
  destruct (setter_receives_untrimmed_parts os.Setenv "FOO " "bar" eq_refl eq_refl)
    as [H1 H2].
  split; [exact H1|]. split; [exact H2|].
  change "FOO =bar" with ("FOO " +:+ String "=" "bar"). rewrite H2.
  repeat split; reflexivity.
Defined.

Lemma envVarPattern_same : V1.envVarPattern = V2.regexEnvFromFile.
Proof. reflexivity. Qed.

(** ** The line pattern refuses a blank key *)

Lemma byte_is_eq n c : byte_is n c = true -> c = ascii_of_nat n.
Proof.
  unfold byte_is. intros H%Nat.eqb_eq. by rewrite <- H, ascii_nat_embedding.
Qed.

Lemma class_s_not_key c : class_s c = true -> class_key c = false.
Proof.
  unfold class_s. rewrite !orb_true_iff.
  intros [[[[H|H]|H]|H]|H]; apply byte_is_eq in H; by subst.
Qed.

Lemma anchored_search_later re s :
  regexp.bol re = true -> regexp.search re false s = None.
Proof.
  intros H. induction s as [|c s IH]; simpl; unfold regexp.matchHere; by rewrite H.
Qed.

Lemma MatchString_anchored re s :
  regexp.bol re = true ->
  regexp.MatchString re s =
  match regexp.matchHere re true s with Some _ => true | None => false end.
Proof.
  intros H. unfold regexp.MatchString.
  destruct s as [|c s]; simpl.
  - by destruct (regexp.matchHere re true "").
  - destruct (regexp.matchHere re true (String c s)); [done|].
    by rewrite anchored_search_later.
Qed.

(** After leading white space, the pattern wants a key character. *)
Lemma blank_key_run {R} ws rest caps (k : string -> list string -> option R) :
  (forall c s caps', class_key c = false -> k (String c s) caps' = None) ->
  all_bytes class_s ws = true ->
  regexp.greedy class_s (ws +:+ String "=" rest) caps k = None.
Proof.
  intros Hk. induction ws as [|c ws IH]; intros H.
  - rewrite sapp_nil_l. simpl. by apply Hk.
  - simpl in H. apply andb_true_iff in H as [Hc H].
    rewrite sapp_cons. simpl. rewrite Hc, (IH H).
    apply Hk. by apply class_s_not_key.
Qed.

Lemma blank_key_rejected ws rest :
  all_bytes class_s ws = true ->
  regexp.MatchString V2.regexEnvFromFile (ws +:+ String "=" rest) = false.
Proof.
  intros H. rewrite MatchString_anchored by done.
  unfold regexp.matchHere. simpl.
  rewrite blank_key_run; [done| |done].
  intros c s caps' Hc. by rewrite Hc.
Qed.

(** ** Scanning and loading *)

Lemma V2_scan_lines_app pre rest w :
  V2.scan_lines (pre ++ rest) w =
  match V2.scan_lines pre w with
  | (Returned None, w') => V2.scan_lines rest w'
  | other => other
  end.
Proof.
  revert w. induction pre as [|line pre IH]; intros w; [done|].
  simpl. destruct (V2.isCommentOrEmpty line); [apply IH|].
  unfold bind.
  destruct (V2.setEnvVarFromLine V2.regexEnvFromFile line w) as [[[e|]|v] w1]; auto.
Qed.

Lemma V2_scan_lines_invalid line rest w :
  V2.isCommentOrEmpty line = false ->
  V2.setEnvVarFromLine V2.regexEnvFromFile line = ret (Some (invalid_line_v2 line)) ->
  V2.scan_lines (line :: rest) w = (Returned (Some (invalid_line_v2 line)), w).
Proof. intros Hc Hs. simpl. rewrite Hc. unfold bind. by rewrite Hs. Qed.

Lemma os_Open_ok h name st w :
  file_lines h name = inr st ->
  os.Open h name w = (Returned (inr (os.mkFile name st)), opened name w).
Proof. intros H. unfold os.Open, bind, emit. by rewrite H. Qed.

(** One turn of the loop of [LoadEnv] on a file that opens. *)
Lemma V2_load_files_open h dir envFile rest st w :
  file_lines h (path.Join dir envFile) = inr st ->
  V2.load_files h dir (envFile :: rest) w =
  match V2.parseEnvFile st (opened (path.Join dir envFile) w) with
  | (Returned (Some e), w') => (Returned (Some e), w')
  | (Returned None, w') =>
      (do os.Close (os.mkFile (path.Join dir envFile) st) then
       V2.load_files h dir rest) w'
  | (Panicked v, w') => (Panicked v, w')
  end.
Proof.
  intros H. cbn [V2.load_files]. unfold V2.openFile, bind at 1 2.
  rewrite (os_Open_ok _ _ _ _ H). unfold ret at 1. cbv beta iota.
  unfold bufio.NewScanner. cbn [os.reader]. unfold bind at 1.
  by destruct (V2.parseEnvFile st _) as [[[e|]|v] w'].
Qed.

Lemma V2_parseEnvFile_abort st e w w' :
  V2.scan_lines (lines st) w = (Returned (Some e), w') ->
  V2.parseEnvFile st w = (Returned (Some e), w').
Proof. intros H. unfold V2.parseEnvFile, bind. by rewrite H. Qed.

Lemma invalid_line_v2_text line :
  invalid_line_v2 line =
  errors.Wrap ("invalid .env format: " +:+ line) V2.ErrInvalidEnvFormat.
Proof. unfold invalid_line_v2. by rewrite Errorf_wrap_string. Qed.

Lemma lacks_no_split c s :
  lacks c s = true -> forall key value, s <> key +:+ String c value.
Proof.
  unfold lacks. intros H key value ->. induction key as [|d key IH].
  - rewrite sapp_nil_l in H. simpl in H. by rewrite Ascii.eqb_refl in H.
  - rewrite sapp_cons in H. simpl in H. apply andb_true_iff in H as [_ H]. auto.
Qed.

(** A line the loader applied has put its key in the environment. *)
Lemma V2_setEnvVarFromLine_ok re line w w1 :
  V2.setEnvVarFromLine re line w = (Returned None, w1) ->
  exists key value,
    strings.Cut line "=" = (key, value, true) /\
    environ w1 = <[key := value]> (environ w).
Proof.
  unfold V2.setEnvVarFromLine. rewrite SplitN_2.
  destruct (strings.Cut line "=") as [[key value] found].
  destruct found; [|done]. cbn [length Nat.eqb negb].
  destruct (regexp.MatchString re line); [|done]. cbn [negb index nth].
  unfold os.Setenv, bind, emit.
  destruct (_ || _); [done|]. intros [= <-]. by exists key, value.
Qed.

Lemma V2_scan_lines_keeps pre w w' :
  V2.scan_lines pre w = (Returned None, w') ->
  (forall k, is_Some (environ w !! k) -> is_Some (environ w' !! k)) /\
  (forall line key value,
     In line pre -> V2.isCommentOrEmpty line = false ->
     strings.Cut line "=" = (key, value, true) -> is_Some (environ w' !! key)).
Proof.
  revert w. induction pre as [|l pre IH]; intros w.
  - intros [= <-]. split; [done|]. intros ??? [].
  - simpl. destruct (V2.isCommentOrEmpty l) eqn:Ec.
    + intros H. destruct (IH w H) as [Hk Hl]. split; [done|].
      intros line key value [<-|Hin] Hnc Hcut; [congruence|eauto].
    + unfold bind.
      destruct (V2.setEnvVarFromLine V2.regexEnvFromFile l w) as [[[e|]|v] w1] eqn:Es;
        try done.
      intros H. destruct (IH w1 H) as [Hk Hl].
      apply V2_setEnvVarFromLine_ok in Es as (key0 & value0 & Hcut0 & Henv).
      split.
      * intros k Hs. apply Hk. rewrite Henv.
        destruct (decide (key0 = k)) as [->|Hne];
          [by rewrite lookup_insert_eq|by rewrite lookup_insert_ne].
      * intros line key value [<-|Hin] Hnc Hcut; [|eauto].
        rewrite Hcut0 in Hcut. injection Hcut as <- <-.
        apply Hk. rewrite Henv. by rewrite lookup_insert_eq.
Qed.

Lemma byte_is_61 c : byte_is 61 c = Ascii.eqb c "=".
Proof. by destruct c as [[] [] [] [] [] [] [] []]. Qed.

Lemma byte_is_0 c : byte_is 0 c = Ascii.eqb c "000".
Proof. by destruct c as [[] [] [] [] [] [] [] []]. Qed.

Lemma has_byte_61 s : os.has_byte 61 s = negb (lacks "=" s).
Proof.
  unfold lacks. induction s as [|c s IH]; [done|]. simpl.
  rewrite IH, byte_is_61. by destruct (Ascii.eqb c "=").
Qed.

Lemma has_byte_0 s : os.has_byte 0 s = negb (lacks "000" s).
Proof.
  unfold lacks. induction s as [|c s IH]; [done|]. simpl.
  rewrite IH, byte_is_0. by destruct (Ascii.eqb c "000").
Qed.

Lemma lacks_app c a b : lacks c (a +:+ b) = lacks c a && lacks c b.
Proof.
  unfold lacks. induction a as [|x a IH]; [done|].
  rewrite sapp_cons. simpl. by rewrite IH, andb_assoc.
Qed.

Lemma Cut_lacks s sep :
  lacks sep s = false -> exists key value, strings.Cut s sep = (key, value, true).
Proof.
  unfold lacks. induction s as [|c s IH]; [done|]. simpl.
  destruct (Ascii.eqb c sep); [by eauto|]. simpl.
  intros (key & value & ->)%IH. eauto.
Qed.

(** A valid assignment is applied: its key gets its value. *)
Lemma V2_valid_assignment_applied line w :
  valid_assignment line = true ->
  exists key value,
    line = key +:+ String "=" value /\ lacks "=" key = true /\
    V2.setEnvVarFromLine V2.regexEnvFromFile line w =
      (Returned None,
       mkWorld (<[key := value]> (environ w)) (open_files w)
         (trace w ++ [EvSetenv key value])).
Proof.
  unfold valid_assignment. rewrite !andb_true_iff, negb_true_iff.
  intros [[Hm Heq] Hnul].
  destruct (Cut_lacks _ _ Heq) as (key & value & Hcut).
  apply Cut_found in Hcut as [-> Hk]. exists key, value.
  split; [done|]. split; [done|].
  rewrite V2_setEnvVarFromLine_accept by done.
  rewrite lacks_app in Hnul. apply andb_true_iff in Hnul as [Hnk Hnv].
  change (lacks "000" (String "=" value)) with (lacks "000" value) in Hnv.
  unfold os.Setenv, bind, emit.
  rewrite has_byte_61, !has_byte_0, Hk, Hnk, Hnv.
  destruct key as [|c key]; [|done].
  rewrite (blank_key_rejected "" value eq_refl) in Hm. done.
Qed.

Lemma V2_scan_lines_valid pre w :
  Forall (fun l => V2.isCommentOrEmpty l = true \/ valid_assignment l = true) pre ->
  exists w', V2.scan_lines pre w = (Returned None, w').
Proof.
  intros H. revert w. induction H as [|l pre Hl _ IH]; intros w; [by exists w|].
  simpl. destruct (V2.isCommentOrEmpty l) eqn:Ec; [apply IH|].
  destruct Hl as [|Hv]; [done|].
  destruct (V2_valid_assignment_applied l w Hv) as (key & value & _ & _ & Hrun).
  unfold bind. rewrite Hrun. apply IH.
Qed.

(** C2: [LoadEnv] returns with the file still open when the parsing of
    the file ends in an error (a line that is not an assignment, a
    failure of the setter, a read error of the scan); only a load that
    succeeds closes it. *)
Theorem LoadEnv_leaves_file_open_on_error :
  let invalid := demo_host [] [(".env", ["APP_NAME:TestApp"])] in
  let nul_value := demo_host [] [(".env", ["A=" +:+ bytes [0]])] in
  let valid := demo_host [] [(".env", ["APP_NAME=TestApp"])] in
  let broken := mkHost (dir_entries valid) (file_bytes valid)
                  (fun _ => inr (mkStream ["APP_NAME=TestApp"] (Some (errors.Opaque "read error"))))
                  (yaml_Unmarshal valid) (unicode_fold valid) in
  let failing_setter := fun key _ : string =>
        ret (Some (errors.Opaque ("simulated error setting " +:+ key))) : M (option error) in
  (* a line that is not an assignment *)
  (fst (V2.LoadEnv invalid (V2.NewGoConfig invalid []) [] world0) =
     Returned (Some (invalid_line_v2 "APP_NAME:TestApp")) /\
   open_files (snd (V2.LoadEnv invalid (V2.NewGoConfig invalid []) [] world0)) = [".env"]) /\
  (fst (V1.LoadEnv invalid os.Setenv [] world0) =
     Returned (Some (invalid_line_v1 "APP_NAME:TestApp")) /\
   open_files (snd (V1.LoadEnv invalid os.Setenv [] world0)) = [".env"]) /\
  (* the setter fails *)
  (fst (V2.LoadEnv nul_value (V2.NewGoConfig nul_value []) [] world0) =
     Returned (Some (errors.Opaque "setenv: invalid argument")) /\
   open_files (snd (V2.LoadEnv nul_value (V2.NewGoConfig nul_value []) [] world0)) = [".env"]) /\
  (fst (V1.LoadEnv valid failing_setter [] world0) =
     Returned (Some (errors.Opaque "simulated error setting APP_NAME")) /\
   open_files (snd (V1.LoadEnv valid failing_setter [] world0)) = [".env"]) /\
  (* the scan stops on a read error *)
  (fst (V2.LoadEnv broken (V2.NewGoConfig broken []) [] world0) =
     Returned (Some (errors.Wrap "error reading .env file: read error"
                       (errors.Opaque "read error"))) /\
   open_files (snd (V2.LoadEnv broken (V2.NewGoConfig broken []) [] world0)) = [".env"]) /\
  (* while a load that succeeds closes the file *)
  (fst (V2.LoadEnv valid (V2.NewGoConfig valid []) [] world0) = Returned None /\
   open_files (snd (V2.LoadEnv valid (V2.NewGoConfig valid []) [] world0)) = []).
Proof. cbv zeta. repeat split; reflexivity. Qed.

(** Counterexample to C3 as stated: a comment with white space before
    its [#] is not skipped; the load then fails on it. *)
Lemma indented_comment_is_not_skipped :
  WhiteSpace " " /\
  " # comment" = " " +:+ String "#" " comment" /\
  V1.isCommentOrEmpty " # comment" = false /\
  V2.isCommentOrEmpty " # comment" = false /\
  fst (V2.scan_lines [" # comment"; "A=1"] world0) =
    Returned (Some (invalid_line_v2 " # comment")).
Proof.
  split.
  - change " " with (" " +:+ ""). constructor; [|constructor].
    unfold strings.spaceRunes. simpl. tauto.
  - repeat split; reflexivity.
Qed.

(** C8: on a text without a placeholder the substitution returns the
    text unchanged. *)
Theorem substitution_without_placeholder text w :
  ~ has_placeholder text ->
  V1.replaceEnvVariables text w = (Returned (text, None), w) /\
  V2.replaceEnvVariables text w = (Returned text, w).
Proof.
  intros H. rewrite replaceEnvVariables_v1, replaceEnvVariables_v2.
  unfold bind. by rewrite !replaceAll_identity.
Qed.

Lemma substitution_without_placeholder_witness :
  ~ has_placeholder "name: TestApp, home: $HOME, {x}" /\
  V1.replaceEnvVariables "name: TestApp, home: $HOME, {x}" world0 =
    (Returned ("name: TestApp, home: $HOME, {x}", None), world0) /\
  V2.replaceEnvVariables "name: TestApp, home: $HOME, {x}" world0 =
    (Returned "name: TestApp, home: $HOME, {x}", world0).
Proof.
  assert (H : ~ has_placeholder "name: TestApp, home: $HOME, {x}")
    by (apply no_match_no_placeholder; reflexivity).
  split; [exact H|].
  exact (substitution_without_placeholder "name: TestApp, home: $HOME, {x}" world0 H).
Defined.

Lemma not_found_v1_text Z :
  not_found_v1 Z = errors.Opaque ("environment variable " +:+ Z +:+ " not found").
Proof. reflexivity. Qed.

Lemma not_found_v2_text Z :
  not_found_v2 Z =
  errors.Wrap ("environment variable not found: " +:+ Z) V2.ErrVariableNotFound.
Proof. unfold not_found_v2. by rewrite Errorf_wrap_string. Qed.

(** C4 (amended): on a text that holds a placeholder whose variable is
    unset or empty the substitution panics; the panic value is the
    variable-not-found error with the name of the leftmost such
    placeholder, which is [Y] when every placeholder before it names a
    variable with a value. *)
Theorem substitution_panics_on_unset_variable before Y after w :
  identifier Y -> getenv w Y = "" ->
  exists Z,
    identifier Z /\ getenv w Z = "" /\
    (exists l r, before +:+ placeholder Y +:+ after = l +:+ placeholder Z +:+ r) /\
    V1.replaceEnvVariables (before +:+ placeholder Y +:+ after) w =
      (Panicked (errors.Opaque ("environment variable " +:+ Z +:+ " not found")), w) /\
    V2.replaceEnvVariables (before +:+ placeholder Y +:+ after) w =
      (Panicked (errors.Wrap ("environment variable not found: " +:+ Z)
                   V2.ErrVariableNotFound), w) /\
    (placeholders_set w before -> Z = Y).
Proof.
  intros HY Hg.
  destruct (replaceAll_panics Y after w HY Hg (String.length before) before (le_n _))
    as (Z & HZ & HgZ & Hocc & Hrun & Hfirst).
  exists Z. split; [done|]. split; [done|]. split; [done|].
  split; [|split; [|done]].
  - rewrite replaceEnvVariables_v1. unfold bind. by rewrite Hrun, not_found_v1_text.
  - by rewrite replaceEnvVariables_v2, Hrun, not_found_v2_text.
Qed.

Lemma no_placeholder_all_set w text :
  ~ has_placeholder text -> placeholders_set w text.
Proof.
  intros H before name after Hid ->. exfalso. apply H. by exists before, name, after.
Qed.

Lemma substitution_panics_on_unset_variable_witness :
  let w := world_with [("APP_NAME", "TestApp")] in
  identifier "VERSION" /\ getenv w "VERSION" = "" /\
  exists Z,
    identifier Z /\ getenv w Z = "" /\
    (exists l r, "name: ${APP_NAME} " +:+ placeholder "VERSION" +:+ "." =
                 l +:+ placeholder Z +:+ r) /\
    V1.replaceEnvVariables ("name: ${APP_NAME} " +:+ placeholder "VERSION" +:+ ".") w =
      (Panicked (errors.Opaque ("environment variable " +:+ Z +:+ " not found")), w) /\
    V2.replaceEnvVariables ("name: ${APP_NAME} " +:+ placeholder "VERSION" +:+ ".") w =
      (Panicked (errors.Wrap ("environment variable not found: " +:+ Z)
                   V2.ErrVariableNotFound), w) /\
    (placeholders_set w "name: ${APP_NAME} " -> Z = "VERSION").
Proof.
  intros w.
  assert (Hid : identifier "VERSION") by (split; [discriminate|reflexivity]).
  split; [exact Hid|]. split; [reflexivity|].
  exact (substitution_panics_on_unset_variable "name: ${APP_NAME} " "VERSION" "." w
           Hid eq_refl).
Defined.

(** Counterexample to C4 as stated: with two unset variables the panic
    names the first one, not the second. *)
Lemma panic_names_the_first_unset_variable :
  identifier "Y" /\ getenv world0 "Y" = "" /\
  "${X} ${Y}" = "${X} " +:+ placeholder "Y" +:+ "" /\
  V1.replaceEnvVariables "${X} ${Y}" world0 =
    (Panicked (errors.Opaque "environment variable X not found"), world0) /\
  V2.replaceEnvVariables "${X} ${Y}" world0 =
    (Panicked (errors.Wrap "environment variable not found: X" V2.ErrVariableNotFound),
     world0) /\
  V1.replaceEnvVariables "${X} ${Y}" world0 <>
    (Panicked (errors.Opaque "environment variable Y not found"), world0) /\
  V2.replaceEnvVariables "${X} ${Y}" world0 <>
    (Panicked (errors.Wrap "environment variable not found: Y" V2.ErrVariableNotFound),
     world0).
Proof.
  split; [split; [discriminate|reflexivity]|].
  repeat split; try reflexivity; vm_compute; discriminate.
Qed.

Lemma deserializer_error_is_returned_witness :
  let h := with_parser (demo_host [("app.yaml", "name: [")] [])
             (fun _ => Some (errors.Opaque "yaml: line 1: did not find expected node content")) in
  let g := V2.NewGoConfig h [] in
  let e := errors.Wrap
             "error unmarshalling configuration: yaml: line 1: did not find expected node content"
             V2.ErrUnmarshalling in
  fst (V2.read h "app" ["conf"] world0) = Returned (inr "name: [") /\
  fst (V2.unmarshallFunc g "name: ["
         (record (snd (V2.read h "app" ["conf"] world0)) [EvUnmarshal "name: ["])) =
    Returned (Some e) /\
  fst (V2.ParseConfig h g "app" ["conf"] world0) = Returned (Some e) /\
  unmarshal_calls (trace (snd (V2.ParseConfig h g "app" ["conf"] world0))) = ["name: ["] /\
  errors.Is e "error unmarshalling configuration" = true.
Proof.
  intros h g e.
  destruct (deserializer_error_is_returned h g "app" ["conf"] world0 "name: [" e
              eq_refl eq_refl) as (H1 & _ & _ & H3).
  split; [reflexivity|]. split; [reflexivity|]. split; [exact H1|].
  destruct (H3 (errors.Opaque "yaml: line 1: did not find expected node content")
              eq_refl eq_refl) as (_ & H4 & H5).
  split; [exact H5|exact H4].
Defined.

(** Counterexample to C7 as stated: the error of an injected
    deserializer reaches the caller as it is, not as [ErrUnmarshalling]. *)
Lemma injected_deserializer_error_is_not_wrapped :
  let h := demo_host [("app.toml", "name = [")] [] in
  let toml := fun _ : string =>
        ret (Some (errors.Opaque "toml: line 1: expected value")) : M (option error) in
  let g := V2.NewGoConfig h [toml] in
  fst (V2.read h "app" ["conf"] world0) = Returned (inr "name = [") /\
  fst (V2.unmarshallFunc g "name = ["
         (record (snd (V2.read h "app" ["conf"] world0)) [EvUnmarshal "name = ["])) =
    Returned (Some (errors.Opaque "toml: line 1: expected value")) /\
  fst (V2.ParseConfig h g "app" ["conf"] world0) =
    Returned (Some (errors.Opaque "toml: line 1: expected value")) /\
  errors.Is (errors.Opaque "toml: line 1: expected value")
    "error unmarshalling configuration" = false /\
  strings.HasPrefix (errors.Error (errors.Opaque "toml: line 1: expected value"))
    "error unmarshalling configuration" = false.
Proof. cbv zeta. repeat split; reflexivity. Qed.

(** ** The open file, in general *)

Lemma os_Setenv_open_files key value w :
  open_files (snd (os.Setenv key value w)) = open_files w.
Proof. unfold os.Setenv, bind, emit. simpl. by destruct (_ || _). Qed.

Lemma V2_setEnvVarFromLine_open_files re line w :
  open_files (snd (V2.setEnvVarFromLine re line w)) = open_files w.
Proof.
  destruct (V2_setEnvVarFromLine_cases re line)
    as [(key & value & _ & _ & _ & ->)|[_ ->]]; [|done].
  apply os_Setenv_open_files.
Qed.

Lemma V2_scan_lines_open_files ls w :
  open_files (snd (V2.scan_lines ls w)) = open_files w.
Proof.
  revert w. induction ls as [|line ls IH]; intros w; [done|]. simpl.
  destruct (V2.isCommentOrEmpty line); [apply IH|]. unfold bind.
  pose proof (V2_setEnvVarFromLine_open_files V2.regexEnvFromFile line w) as H.
  destruct (V2.setEnvVarFromLine V2.regexEnvFromFile line w) as [[[e|]|v] w1];
    simpl in *; try done.
  by rewrite IH.
Qed.

Lemma V2_parseEnvFile_open_files st w :
  open_files (snd (V2.parseEnvFile st w)) = open_files w.
Proof.
  unfold V2.parseEnvFile, bind.
  pose proof (V2_scan_lines_open_files (lines st) w) as H.
  destruct (V2.scan_lines (lines st) w) as [[[e|]|v] w1]; simpl in *; try done.
  by destruct (failure st).
Qed.

(** Whatever the file holds, an error met while it is parsed leaves it
    open at the return of [LoadEnv]. *)
Lemma V2_LoadEnv_error_keeps_file_open h g envFile others st e w :
  file_lines h (path.Join "." envFile) = inr st ->
  fst (V2.parseEnvFile st (opened (path.Join "." envFile) w)) = Returned (Some e) ->
  fst (V2.LoadEnv h g (envFile :: others) w) = Returned (Some e) /\
  open_files (snd (V2.LoadEnv h g (envFile :: others) w)) =
    path.Join "." envFile :: open_files w.
Proof.
  intros Hfile Hparse. unfold V2.LoadEnv. cbn [length Nat.eqb].
  rewrite (V2_load_files_open _ _ _ _ _ _ Hfile).
  pose proof (V2_parseEnvFile_open_files st (opened (path.Join "." envFile) w)) as Ho.
  destruct (V2.parseEnvFile st _) as [o w1]. simpl in Hparse, Ho. subst o.
  by rewrite <- Ho.
Qed.

(** ** The tests of the package, replayed *)

(** TestNewConfigSuccessReplaceEnvVariables *)
Example test_replace_env_variables :
  fst (V1.replaceEnvVariables ("name: ${TESTAPPNAME}" +:+ nl +:+ "version: 1.0")
         (world_with [("TESTAPPNAME", "goConfig")])) =
  Returned ("name: goConfig" +:+ nl +:+ "version: 1.0", None).
Proof. reflexivity. Qed.

(** TestNewConfigErrorReplaceEnvVariablesPanicOnMissingEnvVar and
    TestParseConfigFailEnvNotFound *)
Example test_panic_on_missing_variable :
  errors.Error <$> (match fst (V1.replaceEnvVariables "name: ${TESTAPPNAME}" world0) with
                    | Panicked v => Some v | Returned _ => None end) =
    Some "environment variable TESTAPPNAME not found" /\
  errors.Error <$> (match fst (V2.replaceEnvVariables "name: ${APP_NAME}" world0) with
                    | Panicked v => Some v | Returned _ => None end) =
    Some "environment variable not found: APP_NAME".
Proof. split; reflexivity. Qed.

(** TestNewConfigErrorFileWithoutExtension and
    TestParseConfigFailFileWithoutExtension *)
Example test_file_without_extension :
  let h := demo_host [("appconfig", "dummy content")] [] in
  fst (V1.read h "app" "conf" world0) =
    Returned (inl (errors.Opaque "unsupported extension app")) /\
  match fst (V2.ParseConfig h (V2.NewGoConfig h []) "app" ["conf"] world0) with
  | Returned (Some err) => errors.Is err "unsupported extension"
  | _ => false
  end = true.
Proof. split; reflexivity. Qed.

(** TestParseConfigFailUnsupportedFileExtension *)
Example test_go_file_is_excluded :
  let h := demo_host [("app.go", "name: TestApp")] [] in
  match fst (V2.ParseConfig h (V2.NewGoConfig h []) "app" ["conf"] world0) with
  | Returned (Some err) => errors.Is err "unsupported extension"
  | _ => false
  end = true.
Proof. reflexivity. Qed.

(** TestParseConfigFailNoDirFound *)
Example test_no_directory :
  let h := demo_host [] [] in
  match fst (V2.ParseConfig h (V2.NewGoConfig h []) "app" [] world0) with
  | Returned (Some err) => errors.Is err "error opening directory"
  | _ => false
  end = true.
Proof. reflexivity. Qed.

(** TestLoadEnvSuccessWithComment *)
Example test_load_env_with_comment :
  let h := demo_host [] [(".env", ["APP_NAME=TestApp"; "# This is a comment"; "APP_VERSION=1.0"])] in
  let r := V2.LoadEnv h (V2.NewGoConfig h []) [] world0 in
  fst r = Returned None /\
  getenv (snd r) "APP_NAME" = "TestApp" /\ getenv (snd r) "APP_VERSION" = "1.0".
Proof. repeat split; reflexivity. Qed.

(** TestLoadEnvErrorInvalidFormat, TestLoadEnvFailSplitN and
    TestLoadEnvFailMatchString *)
Example test_load_env_invalid_format :
  let h := demo_host [] [(".env", ["APP_NAME:TestApp"; "APP_VERSION:1.0"]);
                         ("b.env", ["APP_NAME:=TestApp"; "APP_VERSION=1.0"])] in
  errors.Error <$> (match fst (V1.LoadEnv h os.Setenv [] world0) with
                    | Returned e => e | Panicked _ => None end) =
    Some "invalid .env format on line: APP_NAME:TestApp" /\
  match fst (V2.LoadEnv h (V2.NewGoConfig h []) [] world0) with
  | Returned (Some err) => errors.Is err "invalid .env format"
  | _ => false
  end = true /\
  match fst (V2.LoadEnv h (V2.NewGoConfig h []) ["b.env"] world0) with
  | Returned (Some err) => errors.Is err "invalid .env format"
  | _ => false
  end = true.
Proof. repeat split; reflexivity. Qed.

(** Two entries match the name: the first of the listing is read, the
    other is not. *)
Example read_first_of_two :
  let h := demo_host [("app.json", "{}"); ("app.yaml", "name: TestApp")] [] in
  V2.read h "app" ["conf"] world0 =
    (Returned (inr "{}"),
     mkWorld ∅ [] [EvReadDir "conf"; EvReadFile "conf/app.json"]) /\
  V1.read h "APP" "conf" world0 =
    (Returned (inr "{}"),
     mkWorld ∅ [] [EvReadDir "conf"; EvReadFile "conf/app.json"]).
Proof. split; reflexivity. Qed.

(** Lines the pattern of the env file accepts and refuses. *)
Example line_pattern_samples :
  map (regexp.MatchString V2.regexEnvFromFile)
    ["A=1"; "A="; " A.b-c = x y "; "FOO =bar"; "=1"; " =1"; "A B=1"; "A"; "A:=1"; "# c=1"] =
    [true; true; true; true; false; false; false; false; false; false].
Proof. reflexivity. Qed.

(** A line made of a no-break space and a tab is blank. *)
Example unicode_blank_line :
  V2.isCommentOrEmpty (bytes [194; 160; 9]) = true /\
  V2.isCommentOrEmpty (bytes [194; 9]) = false.
Proof. split; reflexivity. Qed.

(** ** Further properties: substitution *)

Lemma seq_outcome_assoc a b c :
  seq_outcome (seq_outcome a b) c = seq_outcome a (seq_outcome b c).
Proof. destruct a, b, c; simpl; try done. by rewrite sapp_assoc. Qed.

Lemma seq_outcome_nil o : seq_outcome (Returned "") o = o.
Proof. by destruct o. Qed.

(** The outcome of the scan of [s] in [w]. *)
Lemma scan_nil nf b w :
  fst (regexp.replaceAll V2.regexEnv (substitute_var nf) b 0 "" w) = Returned "".
Proof. reflexivity. Qed.

Lemma scan_placeholder nf b name rest w :
  identifier name ->
  fst (regexp.replaceAll V2.regexEnv (substitute_var nf) b 0 (placeholder name +:+ rest) w) =
  seq_outcome (lookup_outcome nf w name)
    (fst (regexp.replaceAll V2.regexEnv (substitute_var nf) false 0 rest w)).
Proof.
  intros H. rewrite replaceAll_placeholder by done. unfold bind at 1.
  rewrite substitute_var_placeholder by done. unfold lookup_outcome.
  destruct (String.eqb (getenv w name) ""); [done|]. unfold bind.
  by destruct (regexp.replaceAll V2.regexEnv (substitute_var nf) false 0 rest w) as [[] ?].
Qed.

Lemma scan_byte nf b c s w :
  regexp.matchHere V2.regexEnv false (String c s) = None ->
  fst (regexp.replaceAll V2.regexEnv (substitute_var nf) b 0 (String c s) w) =
  seq_outcome (Returned (String c ""))
    (fst (regexp.replaceAll V2.regexEnv (substitute_var nf) false 0 s w)).
Proof.
  intros H. rewrite replaceAll_no_match by (by rewrite matchHere_regexEnv_any).
  unfold bind.
  by destruct (regexp.replaceAll V2.regexEnv (substitute_var nf) false 0 s w) as [[] ?].
Qed.

Lemma scan_any_start nf b s w :
  fst (regexp.replaceAll V2.regexEnv (substitute_var nf) b 0 s w) =
  fst (regexp.replaceAll V2.regexEnv (substitute_var nf) false 0 s w).
Proof.
  destruct s as [|c s]; [done|].
  destruct (regexp.matchHere V2.regexEnv false (String c s)) as [[subs rest]|] eqn:E.
  - apply matchHere_regexEnv_inv in E as (name & Hid & -> & _).
    by rewrite !scan_placeholder.
  - by rewrite !scan_byte.
Qed.

(** The scan of a text around a placeholder is the scan of what is
    before it, the lookup of its variable, and the scan of what is after
    it, in this order. *)
Lemma scan_around_placeholder nf X after w :
  identifier X ->
  forall n before b, String.length before <= n ->
  fst (regexp.replaceAll V2.regexEnv (substitute_var nf) b 0
         (before +:+ placeholder X +:+ after) w) =
  seq_outcome (fst (regexp.replaceAll V2.regexEnv (substitute_var nf) b 0 before w))
    (seq_outcome (lookup_outcome nf w X)
       (fst (regexp.replaceAll V2.regexEnv (substitute_var nf) false 0 after w))).
Proof.
  intros HX. induction n as [|n IH]; intros before b Hlen.
  - destruct before; [|simpl in Hlen; lia].
    rewrite sapp_nil_l, scan_nil, seq_outcome_nil. by apply scan_placeholder.
  - destruct before as [|c before]; [apply (IH ""); simpl; lia|]. simpl in Hlen.
    destruct (regexp.matchHere V2.regexEnv false
                (String c before +:+ placeholder X +:+ after)) as [[subs rest]|] eqn:E.
    + apply matchHere_regexEnv_inv in E as (name & Hid & Hs & _).
      destruct (match_before_placeholder _ _ _ _ _ _ Hid Hs) as (b3 & Hb & ->).
      rewrite Hb, sapp_assoc, !scan_placeholder by done.
      rewrite IH, seq_outcome_assoc; [done|].
      apply (f_equal String.length) in Hb. rewrite slength_app in Hb. simpl in Hb. lia.
    + assert (Hc : regexp.matchHere V2.regexEnv false (String c before) = None).
      { destruct (regexp.matchHere V2.regexEnv false (String c before))
          as [[subs rest]|] eqn:E'; [|done].
        apply matchHere_regexEnv_inv in E' as (name & Hid & Hs & _).
        rewrite Hs, sapp_assoc, matchHere_placeholder in E by done. done. }
      rewrite sapp_cons in *. rewrite (scan_byte _ _ _ _ _ E), (scan_byte _ _ _ _ _ Hc).
      rewrite IH by lia. by rewrite seq_outcome_assoc.
Qed.

Lemma substitute_v2_scan text w :
  substitute_v2 text w =
  fst (regexp.replaceAll V2.regexEnv (substitute_var not_found_v2) false 0 text w).
Proof. unfold substitute_v2. by rewrite replaceEnvVariables_v2, scan_any_start. Qed.

Lemma substitute_v1_scan text w :
  substitute_v1 text w =
  fst (regexp.replaceAll V2.regexEnv (substitute_var not_found_v1) false 0 text w).
Proof.
  unfold substitute_v1. rewrite replaceEnvVariables_v1. unfold bind.
  rewrite <- (scan_any_start not_found_v1 true).
  by destruct (regexp.replaceAll V2.regexEnv (substitute_var not_found_v1) true 0 text w)
    as [[] ?].
Qed.

(** X1: the substitution works placeholder by placeholder, from left to
    right: on a text around a placeholder its outcome is the outcome on
    the text before it, then the value of the variable (or the panic for
    it), then the outcome on the text after it.  The value is put in as
    it is; it is not scanned again. *)
Theorem substitution_around_placeholder before X after w :
  identifier X ->
  substitute_v1 (before +:+ placeholder X +:+ after) w =
    seq_outcome (substitute_v1 before w)
      (seq_outcome (lookup_outcome not_found_v1 w X) (substitute_v1 after w)) /\
  substitute_v2 (before +:+ placeholder X +:+ after) w =
    seq_outcome (substitute_v2 before w)
      (seq_outcome (lookup_outcome not_found_v2 w X) (substitute_v2 after w)).
Proof.
  intros H. rewrite !substitute_v1_scan, !substitute_v2_scan.
  split; by apply (scan_around_placeholder _ X after w H (String.length before)).
Qed.

Lemma substitution_around_placeholder_witness :
  let w := world_with [("HOST", "${PORT}"); ("PORT", "80")] in
  identifier "HOST" /\
  substitute_v2 ("url: " +:+ placeholder "HOST" +:+ ":${PORT}") w =
    Returned "url: ${PORT}:80" /\
  substitute_v1 ("url: " +:+ placeholder "HOST" +:+ ":${PORT}") w =
    Returned "url: ${PORT}:80".
Proof.
  intros w.
  assert (Hid : identifier "HOST") by (split; [discriminate|reflexivity]).
  destruct (substitution_around_placeholder "url: " "HOST" ":${PORT}" w Hid) as [H1 H2].
  split; [exact Hid|]. split.
  - rewrite H2. reflexivity.
  - rewrite H1. reflexivity.
Defined.

(** The scan returns when every placeholder names a variable with a
    value. *)
Lemma scan_returns nf w :
  forall n text, String.length text <= n -> placeholders_set w text ->
  exists out,
    fst (regexp.replaceAll V2.regexEnv (substitute_var nf) false 0 text w) = Returned out.
Proof.
  induction n as [|n IH]; intros text Hlen Hset.
  - destruct text; [by exists ""|simpl in Hlen; lia].
  - destruct text as [|c text]; [by exists ""|]. simpl in Hlen.
    destruct (regexp.matchHere V2.regexEnv false (String c text)) as [[subs rest]|] eqn:E.
    + apply matchHere_regexEnv_inv in E as (name & Hid & Hs & _).
      rewrite Hs in *. rewrite scan_placeholder by done.
      assert (Hv : getenv w name <> "").
      { apply (Hset "" name rest Hid). by rewrite sapp_nil_l. }
      unfold lookup_outcome. apply String.eqb_neq in Hv. rewrite Hv.
      destruct (IH rest) as [out Hout].
      * apply (f_equal String.length) in Hs. rewrite slength_app in Hs.
        destruct name as [|? ?]; [by destruct Hid|]. simpl in Hs. lia.
      * by apply placeholders_set_after in Hset.
      * rewrite Hout. by eexists.
    + rewrite scan_byte by done.
      destruct (IH text) as [out Hout]; [lia|by apply placeholders_set_tail in Hset|].
      rewrite Hout. by eexists.
Qed.

(** X2: the substitution returns exactly when every placeholder of the
    text names a variable with a non-empty value; otherwise it panics. *)
Theorem substitution_returns_iff_all_set text w :
  ((exists out, substitute_v1 text w = Returned out) <-> placeholders_set w text) /\
  ((exists out, substitute_v2 text w = Returned out) <-> placeholders_set w text).
Proof.
  rewrite substitute_v1_scan, substitute_v2_scan.
  split; split.
  - intros [out Hout] before name after Hid -> Hg.
    destruct (replaceAll_panics name after w Hid Hg (String.length before) before (le_n _))
      as (Z & _ & _ & _ & Hrun & _).
    rewrite (Hrun not_found_v1 false) in Hout. done.
  - by apply (scan_returns _ w (String.length text)).
  - intros [out Hout] before name after Hid -> Hg.
    destruct (replaceAll_panics name after w Hid Hg (String.length before) before (le_n _))
      as (Z & _ & _ & _ & Hrun & _).
    rewrite (Hrun not_found_v2 false) in Hout. done.
  - by apply (scan_returns _ w (String.length text)).
Qed.

(** X3: the substitution only reads the environment: it leaves the world
    as it is, whether it returns or panics, and its outcome is the same
    in two worlds with the same environment. *)
Theorem substitution_only_reads_environment text w1 w2 :
  snd (V1.replaceEnvVariables text w1) = w1 /\
  snd (V2.replaceEnvVariables text w1) = w1 /\
  (environ w1 = environ w2 ->
   substitute_v1 text w1 = substitute_v1 text w2 /\
   substitute_v2 text w1 = substitute_v2 text w2).
Proof.
  split; [|split].
  - rewrite replaceEnvVariables_v1. unfold bind.
    pose proof (replaceAll_world V2.regexEnv not_found_v1 true 0 text w1) as H.
    by destruct (regexp.replaceAll _ _ _ _ _ w1) as [[] ?].
  - rewrite replaceEnvVariables_v2. apply replaceAll_world.
  - intros He. rewrite !substitute_v1_scan, !substitute_v2_scan.
    split; by apply replaceAll_env.
Qed.

Lemma substitution_only_reads_environment_witness :
  let w1 := world_with [("APP_NAME", "TestApp")] in
  let w2 := mkWorld (environ w1) ["a.env"] [EvOpen "a.env"] in
  environ w1 = environ w2 /\
  snd (V2.replaceEnvVariables "name: ${APP_NAME}" w2) = w2 /\
  substitute_v2 "name: ${APP_NAME}" w2 = Returned "name: TestApp".
Proof.
  intros w1 w2.
  destruct (substitution_only_reads_environment "name: ${APP_NAME}" w2 w1)
    as (_ & H2 & H3).
  split; [reflexivity|]. split; [exact H2|].
  rewrite (proj2 (H3 eq_refl)). reflexivity.
Defined.

(** ** Further properties: the line pattern *)

Lemma greedy_sound {R} p s caps (k : string -> list string -> option R) r :
  regexp.greedy p s caps k = Some r ->
  exists a b, s = a +:+ b /\ all_bytes p a = true /\ k b caps = Some r.
Proof.
  induction s as [|c s IH]; simpl.
  - intros H. by exists "", "".
  - destruct (p c) eqn:Ec.
    + destruct (regexp.greedy p s caps k) as [r'|] eqn:Eg.
      * intros [= ->]. destruct (IH eq_refl) as (a & b & -> & Ha & Hk).
        exists (String c a), b. split; [done|]. split; [|done]. simpl. by rewrite Ec.
      * intros H. by exists "", (String c s).
    + intros H. by exists "", (String c s).
Qed.

Lemma greedy_first {R} p s caps (k : string -> list string -> option R) r :
  k (skip_while p s) caps = Some r -> regexp.greedy p s caps k = Some r.
Proof.
  induction s as [|c s IH]; simpl; [done|].
  destruct (p c); [|done]. intros H. by rewrite (IH H).
Qed.

Lemma skip_while_all p s : all_bytes p s = true -> skip_while p s = "".
Proof.
  induction s as [|c s IH]; [done|]. simpl.
  destruct (p c); [|done]. auto.
Qed.

Lemma skip_while_app p a b :
  all_bytes p a = true -> skip_while p (a +:+ b) = skip_while p b.
Proof.
  induction a as [|c a IH]; [done|]. rewrite sapp_cons.
  intros [Hc Ha]%andb_true_iff. simpl. rewrite Hc. auto.
Qed.

Lemma all_bytes_skip_while p q s :
  all_bytes p s = true -> all_bytes p (skip_while q s) = true.
Proof.
  induction s as [|c s IH]; [done|]. simpl.
  intros [Hc Hs]%andb_true_iff. destruct (q c); [auto|].
  simpl. by rewrite Hc, Hs.
Qed.

Lemma all_bytes_app p a b :
  all_bytes p (a +:+ b) = all_bytes p a && all_bytes p b.
Proof.
  induction a as [|c a IH]; [done|]. rewrite sapp_cons. simpl.
  by rewrite IH, andb_assoc.
Qed.

Lemma class_key_not_s c : class_key c = true -> class_s c = false.
Proof.
  intros H. destruct (class_s c) eqn:E; [|done].
  apply class_s_not_key in E. congruence.
Qed.

Lemma class_key_not_eq c : class_key c = true -> Ascii.eqb c "=" = false.
Proof.
  intros H. destruct (Ascii.eqb c "=") eqn:E; [|done].
  apply Ascii.eqb_eq in E. subst. discriminate.
Qed.

Lemma class_s_not_eq c : class_s c = true -> Ascii.eqb c "=" = false.
Proof.
  intros H. destruct (Ascii.eqb c "=") eqn:E; [|done].
  apply Ascii.eqb_eq in E. subst. discriminate.
Qed.

(** A line the pattern matches has the form of an assignment. *)
Lemma line_pattern_sound line :
  regexp.MatchString V2.regexEnvFromFile line = true -> assignment_shape line.
Proof.
  rewrite MatchString_anchored by done.
  destruct (regexp.matchHere V2.regexEnvFromFile true line) as [m|] eqn:E; [|done].
  intros _. unfold regexp.matchHere in E. simpl in E.
  apply greedy_sound in E as (ws1 & s1 & -> & Hws1 & E).
  destruct s1 as [|c s1]; [done|].
  destruct (class_key c) eqn:Ec; [|done].
  apply greedy_sound in E as (key & s2 & -> & Hkey & E).
  apply greedy_sound in E as (ws2 & s3 & -> & Hws2 & E).
  destruct s3 as [|e s3]; [done|].
  destruct (Ascii.eqb e "=") eqn:Ee; [|done].
  apply Ascii.eqb_eq in Ee as ->.
  exists ws1, (String c key), ws2, s3.
  split; [by rewrite !sapp_cons|]. split; [done|]. split; [done|].
  split; [|done]. simpl. by rewrite Ec.
Qed.

Lemma greedy_some {R} p s caps (k : string -> list string -> option R) :
  is_Some (k (skip_while p s) caps) -> is_Some (regexp.greedy p s caps k).
Proof. intros [r H]. exists r. by apply greedy_first. Qed.

Lemma quest_some {R} (a b : option R) :
  is_Some a -> is_Some (match a with Some x => Some x | None => b end).
Proof. by intros [r ->]. Qed.

(** The pattern matches a line of that form when no line feed follows the
    [=]. *)
Lemma line_pattern_complete ws1 key ws2 rest :
  all_bytes class_s ws1 = true ->
  key <> "" -> all_bytes class_key key = true ->
  all_bytes class_s ws2 = true ->
  all_bytes class_dot rest = true ->
  regexp.MatchString V2.regexEnvFromFile (ws1 +:+ key +:+ ws2 +:+ String "=" rest) = true.
Proof.
  intros Hws1 Hne Hkey Hws2 Hrest.
  rewrite MatchString_anchored by done.
  destruct key as [|c key]; [done|]. simpl in Hkey.
  apply andb_true_iff in Hkey as [Hc Hkey].
  assert (H : is_Some (regexp.matchHere V2.regexEnvFromFile true
                 (ws1 +:+ String c key +:+ ws2 +:+ String "=" rest)));
    [|by destruct H as [m ->]].
  unfold regexp.matchHere. simpl.
  apply greedy_some. rewrite skip_while_app by done.
  rewrite sapp_cons. simpl. rewrite (class_key_not_s c Hc), Hc.
  apply greedy_some. rewrite skip_while_app by done.
  assert (Hk2 : skip_while class_key (ws2 +:+ String "=" rest) = ws2 +:+ String "=" rest).
  { destruct ws2 as [|d ws2]; [done|]. rewrite sapp_cons. simpl.
    simpl in Hws2. apply andb_true_iff in Hws2 as [Hd _].
    by rewrite (class_s_not_key d Hd). }
  rewrite Hk2.
  apply greedy_some. rewrite skip_while_app by done. simpl.
  apply greedy_some. apply quest_some. apply greedy_some.
  rewrite skip_while_all by (by apply all_bytes_skip_while).
  simpl. by eexists.
Qed.

Lemma all_bytes_impl (p q : ascii -> bool) s :
  (forall c, p c = true -> q c = true) -> all_bytes p s = true -> all_bytes q s = true.
Proof.
  intros Hpq. induction s as [|c s IH]; [done|]. simpl.
  intros [Hc Hs]%andb_true_iff. by rewrite (Hpq c Hc), IH.
Qed.

Lemma class_s_not_nul c : class_s c = true -> Ascii.eqb c "000" = false.
Proof.
  intros H. destruct (Ascii.eqb c "000") eqn:E; [|done].
  apply Ascii.eqb_eq in E. subst. discriminate.
Qed.

Lemma class_key_not_nul c : class_key c = true -> Ascii.eqb c "000" = false.
Proof.
  intros H. destruct (Ascii.eqb c "000") eqn:E; [|done].
  apply Ascii.eqb_eq in E. subst. discriminate.
Qed.

(** In a line of the form of an assignment the text before the first [=]
    is not empty and holds neither [=] nor NUL. *)
Lemma assignment_shape_cut line :
  assignment_shape line ->
  exists key value,
    line = key +:+ String "=" value /\
    key <> "" /\ lacks "=" key = true /\ lacks "000" key = true.
Proof.
  intros (ws1 & key & ws2 & rest & -> & Hws1 & Hne & Hkey & Hws2).
  exists (ws1 +:+ key +:+ ws2), rest.
  split; [by rewrite !sapp_assoc|]. split; [|split].
  - destruct ws1; [|done]. by destruct key.
  - unfold lacks. rewrite !all_bytes_app, !andb_true_iff.
    split; [|split].
    + apply (all_bytes_impl class_s); [|done].
      intros c Hc. apply negb_true_iff. by apply class_s_not_eq.
    + apply (all_bytes_impl class_key); [|done].
      intros c Hc. apply negb_true_iff. by apply class_key_not_eq.
    + apply (all_bytes_impl class_s); [|done].
      intros c Hc. apply negb_true_iff. by apply class_s_not_eq.
  - unfold lacks. rewrite !all_bytes_app, !andb_true_iff.
    split; [|split].
    + apply (all_bytes_impl class_s); [|done].
      intros c Hc. apply negb_true_iff. by apply class_s_not_nul.
    + apply (all_bytes_impl class_key); [|done].
      intros c Hc. apply negb_true_iff. by apply class_key_not_nul.
    + apply (all_bytes_impl class_s); [|done].
      intros c Hc. apply negb_true_iff. by apply class_s_not_nul.
Qed.

(** X4: on a line without a line feed (every line the scanner yields is
    one) the pattern of the env file matches exactly the lines made of a
    key of one or more characters of [[\w.-]], with white space allowed
    before and after it, an [=], and any text. *)
Theorem line_pattern_boundary line :
  all_bytes class_dot line = true ->
  (regexp.MatchString V2.regexEnvFromFile line = true <-> assignment_shape line) /\
  (regexp.MatchString V1.envVarPattern line = true <-> assignment_shape line).
Proof.
  intros Hdot.
  assert (H : regexp.MatchString V2.regexEnvFromFile line = true <-> assignment_shape line);
    [|by split].
  split; [apply line_pattern_sound|].
  intros (ws1 & key & ws2 & rest & -> & Hws1 & Hne & Hkey & Hws2).
  apply line_pattern_complete; try done.
  rewrite !all_bytes_app in Hdot. simpl in Hdot.
  repeat (apply andb_true_iff in Hdot as [? Hdot]). done.
Qed.

Lemma line_pattern_boundary_witness :
  all_bytes class_dot " A.b-c = x y " = true /\
  regexp.MatchString V2.regexEnvFromFile " A.b-c = x y " = true /\
  assignment_shape " A.b-c = x y ".
Proof.
  split; [reflexivity|]. split; [reflexivity|].
  exact (proj1 (proj1 (line_pattern_boundary " A.b-c = x y " eq_refl)) eq_refl).
Defined.

Lemma os_Setenv_run key value w :
  os.Setenv key value w =
  if String.eqb key "" || negb (lacks "=" key) || negb (lacks "000" key)
     || negb (lacks "000" value)
  then (Returned (Some (errors.Opaque "setenv: invalid argument")),
        record w [EvSetenv key value])
  else (Returned None,
        mkWorld (<[key := value]> (environ w)) (open_files w)
          (trace w ++ [EvSetenv key value])).
Proof.
  unfold os.Setenv, bind, emit. cbv beta iota.
  rewrite has_byte_61, !has_byte_0. by destruct (_ || _).
Qed.

(** X5: a line that matches the pattern is always handed to [os.Setenv],
    split at its first [=]; the variable is set unless the value holds a
    NUL byte, the one case in which [os.Setenv] refuses it. *)
Theorem matching_line_is_applied line w :
  regexp.MatchString V2.regexEnvFromFile line = true ->
  exists key value,
    line = key +:+ String "=" value /\ lacks "=" key = true /\
    V2.setEnvVarFromLine V2.regexEnvFromFile line w =
      (if lacks "000" value
       then (Returned None,
             mkWorld (<[key := value]> (environ w)) (open_files w)
               (trace w ++ [EvSetenv key value]))
       else (Returned (Some (errors.Opaque "setenv: invalid argument")),
             record w [EvSetenv key value])).
Proof.
  intros Hm.
  destruct (assignment_shape_cut line (line_pattern_sound line Hm))
    as (key & value & -> & Hne & Heq & Hnul).
  exists key, value. split; [done|]. split; [done|].
  rewrite V2_setEnvVarFromLine_accept, os_Setenv_run by done.
  rewrite Heq, Hnul. apply String.eqb_neq in Hne. rewrite Hne. simpl.
  by destruct (lacks "000" value).
Qed.

Lemma matching_line_is_applied_witness :
  regexp.MatchString V2.regexEnvFromFile "DB.HOST = localhost" = true /\
  exists key value,
    "DB.HOST = localhost" = key +:+ String "=" value /\ lacks "=" key = true /\
    V2.setEnvVarFromLine V2.regexEnvFromFile "DB.HOST = localhost" world0 =
      (if lacks "000" value
       then (Returned None,
             mkWorld (<[key := value]> (environ world0)) (open_files world0)
               (trace world0 ++ [EvSetenv key value]))
       else (Returned (Some (errors.Opaque "setenv: invalid argument")),
             record world0 [EvSetenv key value])).
Proof.
  split; [reflexivity|].
  exact (matching_line_is_applied "DB.HOST = localhost" world0 eq_refl).
Defined.

(** X6: [setEnvVarFromLine] answers with the invalid-format error exactly
    on the lines the pattern does not match, in both versions: the count
    of the parts of [SplitN] never decides, so the order of the two
    checks makes no difference. *)
Theorem invalid_format_iff_no_match line w :
  (fst (V1.setEnvVarFromLine os.Setenv V1.envVarPattern line w) =
     Returned (Some (invalid_line_v1 line)) <->
   regexp.MatchString V1.envVarPattern line = false) /\
  (fst (V2.setEnvVarFromLine V2.regexEnvFromFile line w) =
     Returned (Some (invalid_line_v2 line)) <->
   regexp.MatchString V2.regexEnvFromFile line = false).
Proof.
  split.
  - destruct (regexp.MatchString V1.envVarPattern line) eqn:Em.
    + destruct (assignment_shape_cut line (line_pattern_sound line Em))
        as (key & value & -> & Hne & Heq & Hnul).
      rewrite V1_setEnvVarFromLine_accept, os_Setenv_run by done.
      split; [|done]. by destruct (_ || _).
    + split; [done|]. intros _. unfold V1.setEnvVarFromLine. by rewrite Em.
  - destruct (regexp.MatchString V2.regexEnvFromFile line) eqn:Em.
    + destruct (assignment_shape_cut line (line_pattern_sound line Em))
        as (key & value & -> & Hne & Heq & Hnul).
      rewrite V2_setEnvVarFromLine_accept, os_Setenv_run by done.
      split; [|done]. by destruct (_ || _).
    + split; [done|]. intros _.
      destruct (V2_setEnvVarFromLine_cases V2.regexEnvFromFile line)
        as [(key & value & _ & _ & Hm & _)|[_ ->]]; [congruence|done].
Qed.

Lemma WhiteSpace_lacks_eq s : WhiteSpace s -> lacks "=" s = true.
Proof.
  induction 1 as [|r s Hr _ IH]; [done|]. rewrite lacks_app, IH, andb_true_r.
  revert Hr. unfold strings.spaceRunes. simpl.
  intros H. repeat (destruct H as [<-|H]; [reflexivity|]). destruct H.
Qed.

(** A comment or blank line does not match the pattern. *)
Lemma comment_no_match line :
  V2.isCommentOrEmpty line = true ->
  regexp.MatchString V2.regexEnvFromFile line = false.
Proof.
  intros Hc. destruct (regexp.MatchString V2.regexEnvFromFile line) eqn:Em; [|done].
  exfalso. apply line_pattern_sound in Em.
  apply isCommentOrEmpty_iff in Hc as [[rest ->]|Hws].
  - destruct Em as (ws1 & key & ws2 & rest' & Heq & Hws1 & Hne & Hkey & _).
    destruct ws1 as [|c ws1].
    + destruct key as [|c key]; [done|]. rewrite sapp_nil_l, sapp_cons in Heq.
      injection Heq as <- _. simpl in Hkey. discriminate.
    + rewrite sapp_cons in Heq. injection Heq as <- _. simpl in Hws1. discriminate.
  - apply assignment_shape_cut in Em as (key & value & -> & _).
    apply WhiteSpace_lacks_eq in Hws. rewrite lacks_app in Hws.
    apply andb_true_iff in Hws as [_ Hws]. unfold lacks in Hws. simpl in Hws.
    discriminate.
Qed.

(** X7: a line that is passed over as a comment or a blank never matches
    the pattern: passing it over hides no assignment, it only spares the
    load the invalid-format error. *)
Theorem skipped_line_is_no_assignment line :
  V2.isCommentOrEmpty line = true ->
  regexp.MatchString V2.regexEnvFromFile line = false.
Proof. apply comment_no_match. Qed.

Lemma skipped_line_is_no_assignment_witness :
  V2.isCommentOrEmpty "#DEBUG=1" = true /\
  regexp.MatchString V2.regexEnvFromFile "#DEBUG=1" = false.
Proof.
  split; [reflexivity|].
  exact (skipped_line_is_no_assignment "#DEBUG=1" eq_refl).
Defined.

(** ** Further properties: scanning an env file *)

(** The scan of lines that are comments, blanks or valid assignments. *)
Lemma V2_scan_lines_run ls w :
  Forall (fun l => V2.isCommentOrEmpty l = true \/ valid_assignment l = true) ls ->
  V2.scan_lines ls w =
  (Returned None,
   mkWorld (assign_all ls (environ w)) (open_files w) (trace w ++ assign_calls ls)).
Proof.
  intros H. revert w. induction H as [|l ls Hl _ IH]; intros w.
  - simpl. rewrite app_nil_r. by destruct w.
  - simpl. destruct (V2.isCommentOrEmpty l) eqn:Ec; [apply IH|].
    destruct Hl as [|Hv]; [done|].
    destruct (V2_valid_assignment_applied l w Hv) as (key & value & -> & Hk & Hrun).
    unfold bind. rewrite Hrun, IH, Cut_app by done. simpl.
    by rewrite <- app_assoc.
Qed.

(** X8: the scan of lines that are comments, blanks or valid assignments
    succeeds and applies the assignments in the order of the lines: the
    environment it leaves is the one got by setting, line after line, the
    text before the first [=] to the text after it, and [os.Setenv] is
    called once per assignment, in that order. *)
Theorem valid_lines_are_applied_in_order ls w :
  Forall (fun l => V2.isCommentOrEmpty l = true \/ valid_assignment l = true) ls ->
  fst (V2.scan_lines ls w) = Returned None /\
  environ (snd (V2.scan_lines ls w)) = assign_all ls (environ w) /\
  trace (snd (V2.scan_lines ls w)) = trace w ++ assign_calls ls /\
  open_files (snd (V2.scan_lines ls w)) = open_files w.
Proof. intros H. by rewrite V2_scan_lines_run. Qed.

Lemma valid_lines_are_applied_in_order_witness :
  let ls := ["# db"; "HOST=a"; ""; "PORT=1"; "HOST=b"] in
  Forall (fun l => V2.isCommentOrEmpty l = true \/ valid_assignment l = true) ls /\
  fst (V2.scan_lines ls world0) = Returned None /\
  environ (snd (V2.scan_lines ls world0)) = assign_all ls ∅ /\
  assign_all ls ∅ !! "HOST" = Some "b" /\
  trace (snd (V2.scan_lines ls world0)) =
    [EvSetenv "HOST" "a"; EvSetenv "PORT" "1"; EvSetenv "HOST" "b"].
Proof.
  intros ls.
  assert (H : Forall (fun l => V2.isCommentOrEmpty l = true \/ valid_assignment l = true) ls).
  { constructor; [by left|]. constructor; [by right|]. constructor; [by left|].
    constructor; [by right|]. constructor; [by right|]. constructor. }
  destruct (valid_lines_are_applied_in_order ls world0 H) as (H1 & H2 & H3 & _).
  split; [exact H|]. split; [exact H1|]. split; [exact H2|].
  split; [reflexivity|]. rewrite H3. reflexivity.
Defined.

Lemma assign_all_app l1 l2 env :
  assign_all (l1 ++ l2) env = assign_all l2 (assign_all l1 env).
Proof.
  revert env. induction l1 as [|l l1 IH]; intros env; [done|]. simpl.
  destruct (V2.isCommentOrEmpty l); [apply IH|].
  destruct (strings.Cut l "=") as [[k v] f]. apply IH.
Qed.

Lemma assign_all_other ls env key :
  Forall (fun l => V2.isCommentOrEmpty l = true \/
                   fst (fst (strings.Cut l "=")) <> key) ls ->
  assign_all ls env !! key = env !! key.
Proof.
  intros H. revert env. induction H as [|l ls Hl _ IH]; intros env; [done|]. simpl.
  destruct (V2.isCommentOrEmpty l); [apply IH|].
  destruct Hl as [|Hl]; [done|].
  destruct (strings.Cut l "=") as [[k v] f]. simpl in Hl.
  rewrite IH. by rewrite lookup_insert_ne.
Qed.

(** X9: after a scan that succeeds a variable has the value of the last
    line that assigns it: the value given by a line is what [os.Getenv]
    returns afterwards unless a later line has the same text before its
    first [=]. *)
Theorem last_assignment_wins before key value after w :
  Forall (fun l => V2.isCommentOrEmpty l = true \/ valid_assignment l = true)
    (before ++ (key +:+ String "=" value) :: after) ->
  V2.isCommentOrEmpty (key +:+ String "=" value) = false ->
  lacks "=" key = true ->
  Forall (fun l => V2.isCommentOrEmpty l = true \/
                   fst (fst (strings.Cut l "=")) <> key) after ->
  fst (V2.scan_lines (before ++ (key +:+ String "=" value) :: after) w) = Returned None /\
  getenv (snd (V2.scan_lines (before ++ (key +:+ String "=" value) :: after) w)) key = value.
Proof.
  intros Hall Hnc Hk Hafter. rewrite V2_scan_lines_run by done.
  split; [done|]. unfold getenv. cbn [snd environ].
  rewrite assign_all_app. simpl. rewrite Hnc, Cut_app by done.
  rewrite assign_all_other by done. by rewrite lookup_insert_eq.
Qed.

Lemma last_assignment_wins_witness :
  let ls := ["HOST=a"; "HOST=b"; "# HOST=c"; "PORT=1"] in
  Forall (fun l => V2.isCommentOrEmpty l = true \/ valid_assignment l = true) ls /\
  fst (V2.scan_lines ls world0) = Returned None /\
  getenv (snd (V2.scan_lines ls world0)) "HOST" = "b".
Proof.
  intros ls.
  assert (H : Forall (fun l => V2.isCommentOrEmpty l = true \/ valid_assignment l = true) ls).
  { constructor; [by right|]. constructor; [by right|]. constructor; [by left|].
    constructor; [by right|]. constructor. }
  assert (Ha : Forall (fun l => V2.isCommentOrEmpty l = true \/
                               fst (fst (strings.Cut l "=")) <> "HOST")
                 ["# HOST=c"; "PORT=1"]).
  { constructor; [by left|]. constructor; [right; discriminate|]. constructor. }
  split; [exact H|].
  exact (last_assignment_wins ["HOST=a"] "HOST" "b" ["# HOST=c"; "PORT=1"] world0
           H eq_refl eq_refl Ha).
Defined.

(** The scan never takes a variable away, however it ends. *)
Lemma V2_setEnvVarFromLine_grows re line w k :
  is_Some (environ w !! k) ->
  is_Some (environ (snd (V2.setEnvVarFromLine re line w)) !! k).
Proof.
  intros Hk.
  destruct (V2_setEnvVarFromLine_cases re line)
    as [(key & value & _ & _ & _ & ->)|[_ ->]]; [|done].
  rewrite os_Setenv_run. destruct (_ || _); [done|]. simpl.
  destruct (decide (key = k)) as [->|Hne];
    [by rewrite lookup_insert_eq|by rewrite lookup_insert_ne].
Qed.

Lemma V2_scan_lines_grows ls w k :
  is_Some (environ w !! k) ->
  is_Some (environ (snd (V2.scan_lines ls w)) !! k).
Proof.
  revert w. induction ls as [|l ls IH]; intros w Hk; [done|]. simpl.
  destruct (V2.isCommentOrEmpty l); [by apply IH|]. unfold bind.
  pose proof (V2_setEnvVarFromLine_grows V2.regexEnvFromFile l w k Hk) as H.
  destruct (V2.setEnvVarFromLine V2.regexEnvFromFile l w) as [[[e|]|v] w1];
    simpl in *; try done.
  by apply IH.
Qed.

Lemma V2_scan_lines_returns ls w : exists r, fst (V2.scan_lines ls w) = Returned r.
Proof.
  revert w. induction ls as [|l ls IH]; intros w; [by eexists|]. simpl.
  destruct (V2.isCommentOrEmpty l); [apply IH|]. unfold bind.
  destruct (V2_setEnvVarFromLine_cases V2.regexEnvFromFile l)
    as [(key & value & _ & _ & _ & ->)|[_ ->]].
  - rewrite os_Setenv_run. destruct (_ || _); [by eexists|]. apply IH.
  - by eexists.
Qed.

Lemma V2_parseEnvFile_grows st w k :
  is_Some (environ w !! k) ->
  is_Some (environ (snd (V2.parseEnvFile st w)) !! k).
Proof.
  intros Hk. unfold V2.parseEnvFile, bind.
  pose proof (V2_scan_lines_grows (lines st) w k Hk) as H.
  destruct (V2.scan_lines (lines st) w) as [[[e|]|v] w1]; simpl in *; try done.
  by destruct (failure st).
Qed.

Lemma V2_parseEnvFile_returns st w : exists r, fst (V2.parseEnvFile st w) = Returned r.
Proof.
  unfold V2.parseEnvFile, bind.
  destruct (V2_scan_lines_returns (lines st) w) as [r H].
  destruct (V2.scan_lines (lines st) w) as [o w1]. simpl in H. subst o.
  destruct r; [by eexists|]. destruct (failure st); by eexists.
Qed.

Lemma remove_one_head name l : os.remove_one name (name :: l) = l.
Proof. simpl. by rewrite String.eqb_refl. Qed.

Lemma os_Close_run name st w :
  os.Close (os.mkFile name st) w =
  (Returned None,
   mkWorld (environ w) (os.remove_one name (open_files w)) (trace w ++ [EvClose name])).
Proof. reflexivity. Qed.

(** Closing the file that was opened last, then going on. *)
Lemma V2_close_then name st (k : M (option error)) w :
  open_files w = name :: tl (open_files w) ->
  (do os.Close (os.mkFile name st) then k) w =
  k (mkWorld (environ w) (tl (open_files w)) (trace w ++ [EvClose name])).
Proof.
  intros H. unfold bind. rewrite os_Close_run. cbv beta iota.
  rewrite H at 1. by rewrite remove_one_head.
Qed.

(** One turn of the loop of [LoadEnv] on a file that does not open. *)
Lemma V2_load_files_missing h dir envFile rest e w :
  file_lines h (path.Join dir envFile) = inl e ->
  V2.load_files h dir (envFile :: rest) w =
  (Returned (Some (fmt.Errorf "%w: in %v"
                     [fmt.Err V2.ErrOpeningEnvFile; fmt.Str (path.Join dir envFile)])),
   record w [EvOpen (path.Join dir envFile)]).
Proof.
  intros H. cbn [V2.load_files]. unfold V2.openFile, os.Open, bind, emit.
  by rewrite H.
Qed.

(** X10: [LoadEnv] never panics and never takes a variable out of the
    environment, whatever the files hold; and when it returns nil, the
    files it opened are all closed again. *)
Theorem LoadEnv_never_panics_nor_unsets h g envFiles w :
  (exists r, fst (V2.LoadEnv h g envFiles w) = Returned r) /\
  (forall k, is_Some (environ w !! k) ->
             is_Some (environ (snd (V2.LoadEnv h g envFiles w)) !! k)) /\
  (fst (V2.LoadEnv h g envFiles w) = Returned None ->
   open_files (snd (V2.LoadEnv h g envFiles w)) = open_files w).
Proof.
  unfold V2.LoadEnv.
  generalize (if length envFiles =? 0 then [".env"] else envFiles). clear envFiles.
  intros files. revert w. induction files as [|f files IH]; intros w.
  { split; [by eexists|]. split; done. }
  destruct (file_lines h (path.Join "." f)) as [e|st] eqn:Ef.
  { rewrite (V2_load_files_missing _ _ _ _ _ _ Ef). split; [by eexists|]. split; done. }
  rewrite (V2_load_files_open _ _ _ _ _ _ Ef).
  pose proof (V2_parseEnvFile_returns st (opened (path.Join "." f) w)) as [r Hr].
  pose proof (V2_parseEnvFile_open_files st (opened (path.Join "." f) w)) as Ho.
  pose proof (fun k => V2_parseEnvFile_grows st (opened (path.Join "." f) w) k) as Hg.
  destruct (V2.parseEnvFile st (opened (path.Join "." f) w)) as [o w1].
  simpl in Hr, Ho, Hg. subst o. destruct r as [e|].
  { split; [by eexists|]. split; [exact Hg|done]. }
  rewrite V2_close_then by (by rewrite Ho).
  set (w2 := mkWorld (environ w1) _ _).
  destruct (IH w2) as (H1 & H2 & H3).
  split; [exact H1|]. split; [|intros E; rewrite (H3 E); unfold w2; simpl; by rewrite Ho].
  intros k Hk. apply H2. by apply Hg.
Qed.

(** ** Further properties: LoadEnv *)

Lemma assign_all_comments ls env :
  Forall (fun l => V2.isCommentOrEmpty l = true) ls -> assign_all ls env = env.
Proof. induction 1 as [|l ls Hl _ IH]; [done|]. simpl. by rewrite Hl. Qed.

Lemma assign_calls_comments ls :
  Forall (fun l => V2.isCommentOrEmpty l = true) ls -> assign_calls ls = [].
Proof. induction 1 as [|l ls Hl _ IH]; [done|]. simpl. by rewrite Hl. Qed.

Lemma Errorf_reading e :
  fmt.Errorf "error reading .env file: %w" [fmt.Err e] =
  errors.Wrap ("error reading .env file: " +:+ errors.Error e) e.
Proof.
  unfold fmt.Errorf. cbn [fmt.render fmt.show Ascii.eqb]. simpl.
  by rewrite sapp_nil_r.
Qed.

(** One turn of the loop of [LoadEnv] on a file whose lines are comments,
    blanks or valid assignments. *)
Lemma V2_load_files_valid h dir f rest ls fail w :
  file_lines h (path.Join dir f) = inr (mkStream ls fail) ->
  Forall (fun l => V2.isCommentOrEmpty l = true \/ valid_assignment l = true) ls ->
  V2.load_files h dir (f :: rest) w =
  match fail with
  | Some e =>
      (Returned (Some (errors.Wrap ("error reading .env file: " +:+ errors.Error e) e)),
       mkWorld (assign_all ls (environ w)) (path.Join dir f :: open_files w)
         (trace w ++ EvOpen (path.Join dir f) :: assign_calls ls))
  | None =>
      V2.load_files h dir rest
        (mkWorld (assign_all ls (environ w)) (open_files w)
           (trace w ++ EvOpen (path.Join dir f) :: assign_calls ls
              ++ [EvClose (path.Join dir f)]))
  end.
Proof.
  intros Hf Hls. rewrite (V2_load_files_open _ _ _ _ _ _ Hf).
  unfold V2.parseEnvFile, bind at 1. rewrite V2_scan_lines_run by done.
  cbn [lines failure opened environ open_files trace]. destruct fail as [e|].
  - unfold ret. rewrite Errorf_reading. by rewrite <- app_assoc.
  - unfold ret. rewrite V2_close_then by done. cbn [environ open_files trace tl].
    by rewrite <- !app_assoc.
Qed.

(** The same loop in version 1, until the lines are scanned. *)
Lemma V1_load_files_open h setter dir envFile rest st w :
  file_lines h (path.Join dir envFile) = inr st ->
  V1.load_files h setter dir (envFile :: rest) w =
  match V1.parseEnvFile setter st (opened (path.Join dir envFile) w) with
  | (Returned (Some e), w') => (Returned (Some e), w')
  | (Returned None, w') =>
      (do os.Close (os.mkFile (path.Join dir envFile) st) then
       V1.load_files h setter dir rest) w'
  | (Panicked v, w') => (Panicked v, w')
  end.
Proof.
  intros H. cbn [V1.load_files]. unfold V1.openFile, bind at 1 2.
  rewrite (os_Open_ok _ _ _ _ H). unfold ret at 1. cbv beta iota.
  unfold bufio.NewScanner. cbn [os.reader]. unfold bind at 1.
  by destruct (V1.parseEnvFile setter st (opened (path.Join dir envFile) w)) as [[[e|]|v] w'].
Qed.

Lemma V1_load_files_missing h setter dir envFile rest e w :
  file_lines h (path.Join dir envFile) = inl e ->
  V1.load_files h setter dir (envFile :: rest) w =
  (Returned (Some (fmt.Errorf V1.ErrOpeningEnvFile [fmt.Err e])),
   record w [EvOpen (path.Join dir envFile)]).
Proof.
  intros H. cbn [V1.load_files]. unfold V1.openFile, os.Open, bind, emit.
  by rewrite H.
Qed.

Lemma V1_scan_lines_comments setter re ls w :
  Forall (fun l => V2.isCommentOrEmpty l = true) ls ->
  V1.scan_lines setter re ls w = (Returned None, w).
Proof.
  induction 1 as [|l ls Hl _ IH]; [done|]. simpl.
  change (V1.isCommentOrEmpty l) with (V2.isCommentOrEmpty l). by rewrite Hl.
Qed.

(** X11: loading a file that holds only comment lines and blank lines is
    a no-op: in both versions [LoadEnv] returns nil, the environment is
    the one before the call, the file is opened and closed again, and no
    variable is set (in version 1 the setter is never called, whatever it
    is). *)
Theorem comment_only_file_is_no_op h g setter f ls w :
  file_lines h (path.Join "." f) = inr (mkStream ls None) ->
  Forall (fun l => V2.isCommentOrEmpty l = true) ls ->
  V2.LoadEnv h g [f] w =
    (Returned None, record w [EvOpen (path.Join "." f); EvClose (path.Join "." f)]) /\
  V1.LoadEnv h setter [f] w =
    (Returned None, record w [EvOpen (path.Join "." f); EvClose (path.Join "." f)]).
Proof.
  intros Hf Hls. split.
  - unfold V2.LoadEnv. cbn [length Nat.eqb].
    rewrite (V2_load_files_valid _ _ _ _ _ _ _ Hf)
      by (eapply Forall_impl; [exact Hls|by left]).
    by rewrite assign_all_comments, assign_calls_comments.
  - unfold V1.LoadEnv. cbn [length Nat.eqb].
    rewrite (V1_load_files_open _ _ _ _ _ _ _ Hf).
    unfold V1.parseEnvFile, bind at 1. cbn [lines failure].
    rewrite V1_scan_lines_comments by done. unfold ret. cbv beta iota.
    rewrite V2_close_then by done. cbn [V1.load_files opened environ open_files trace tl].
    unfold ret, record. by rewrite <- app_assoc.
Qed.

Lemma comment_only_file_is_no_op_witness :
  let h := demo_host [] [("etc/app.env", ["# settings"; ""; "   "; "#A=1"])] in
  V2.LoadEnv h (V2.NewGoConfig h []) ["/etc/app.env"] (world_with [("A", "0")]) =
    (Returned None,
     record (world_with [("A", "0")]) [EvOpen "etc/app.env"; EvClose "etc/app.env"]) /\
  V1.LoadEnv h (fun _ _ => panic (errors.Opaque "setter called")) ["/etc/app.env"]
    (world_with [("A", "0")]) =
    (Returned None,
     record (world_with [("A", "0")]) [EvOpen "etc/app.env"; EvClose "etc/app.env"]).
Proof.
  intros h.
  refine (comment_only_file_is_no_op h (V2.NewGoConfig h [])
            (fun _ _ => panic (errors.Opaque "setter called")) "/etc/app.env"
            ["# settings"; ""; "   "; "#A=1"] (world_with [("A", "0")]) _ _).
  - reflexivity.
  - repeat constructor.
Defined.

(** X12: a failure of the scanner is looked at only after the loop: when
    the lines that were read are comments, blanks or valid assignments
    and the scanner then reports the error [e], every assignment has been
    applied, [LoadEnv] returns an error that wraps [e] with the text
    [error reading .env file: ], and no later file is opened. *)
Theorem scanner_failure_is_reported_after_the_lines h g f others ls e w :
  file_lines h (path.Join "." f) = inr (mkStream ls (Some e)) ->
  Forall (fun l => V2.isCommentOrEmpty l = true \/ valid_assignment l = true) ls ->
  V2.LoadEnv h g (f :: others) w =
    (Returned (Some (errors.Wrap ("error reading .env file: " +:+ errors.Error e) e)),
     mkWorld (assign_all ls (environ w)) (path.Join "." f :: open_files w)
       (trace w ++ EvOpen (path.Join "." f) :: assign_calls ls)).
Proof.
  intros Hf Hls. unfold V2.LoadEnv. cbn [length Nat.eqb].
  by rewrite (V2_load_files_valid _ _ _ _ _ _ _ Hf).
Qed.

Lemma scanner_failure_is_reported_after_the_lines_witness :
  let e := errors.Opaque "bufio.Scanner: token too long" in
  let h := mkHost (fun _ => inr []) (fun _ => inl e)
             (fun p => if String.eqb p ".env" then inr (mkStream ["A=1"; "B=2"] (Some e))
                       else inr (mkStream ["C=3"] None))
             (fun _ => None) (fun _ _ => false) in
  V2.LoadEnv h (V2.NewGoConfig h []) ["./.env"; "more.env"] world0 =
    (Returned (Some (errors.Wrap "error reading .env file: bufio.Scanner: token too long" e)),
     mkWorld (<["B" := "2"]> (<["A" := "1"]> ∅)) [".env"]
       [EvOpen ".env"; EvSetenv "A" "1"; EvSetenv "B" "2"]).
Proof.
  intros e h.
  refine (scanner_failure_is_reported_after_the_lines h (V2.NewGoConfig h []) "./.env"
            ["more.env"] ["A=1"; "B=2"] e world0 _ _).
  - reflexivity.
  - constructor; [by right|]. constructor; [by right|]. constructor.
Defined.

(** The loop of [LoadEnv] over two lists of files, one after the other. *)
Lemma V2_load_files_app h dir l1 l2 w :
  V2.load_files h dir (l1 ++ l2) w =
  match V2.load_files h dir l1 w with
  | (Returned None, w') => V2.load_files h dir l2 w'
  | r => r
  end.
Proof.
  revert w. induction l1 as [|f l1 IH]; intros w; [done|].
  rewrite <- app_comm_cons.
  destruct (file_lines h (path.Join dir f)) as [e|st] eqn:Ef.
  { by rewrite !(V2_load_files_missing _ _ _ _ _ _ Ef). }
  rewrite !(V2_load_files_open _ _ _ _ _ _ Ef).
  destruct (V2.parseEnvFile st (opened (path.Join dir f) w)) as [[[e|]|v] w1]; try done.
  unfold bind. rewrite os_Close_run. cbv beta iota. apply IH.
Qed.

(** X13: [LoadEnv] on a list of files is [LoadEnv] on a first part of
    the list followed, when that returned nil, by [LoadEnv] on the rest in
    the world the first part left; when the first part returns an error,
    this is the result and no file of the rest is touched.  (Both parts
    are not empty: on an empty list [LoadEnv] loads [.env].) *)
Theorem LoadEnv_files_one_after_the_other h g l1 l2 w :
  l1 <> [] -> l2 <> [] ->
  V2.LoadEnv h g (l1 ++ l2) w =
  match V2.LoadEnv h g l1 w with
  | (Returned None, w') => V2.LoadEnv h g l2 w'
  | r => r
  end.
Proof.
  intros H1 H2. unfold V2.LoadEnv.
  destruct l1 as [|f1 l1]; [done|]. destruct l2 as [|f2 l2]; [done|].
  cbn [length Nat.eqb app]. rewrite app_comm_cons. apply V2_load_files_app.
Qed.

Lemma LoadEnv_files_one_after_the_other_witness :
  let h := demo_host [] [("a.env", ["A=1"]); ("b.env", ["A=2"; "B=3"])] in
  let g := V2.NewGoConfig h [] in
  V2.LoadEnv h g (["a.env"] ++ ["b.env"]) world0 =
  match V2.LoadEnv h g ["a.env"] world0 with
  | (Returned None, w') => V2.LoadEnv h g ["b.env"] w'
  | r => r
  end /\
  getenv (snd (V2.LoadEnv h g ["a.env"; "b.env"] world0)) "A" = "2".
Proof.
  intros h g. split; [|reflexivity].
  apply (LoadEnv_files_one_after_the_other h g ["a.env"] ["b.env"] world0); discriminate.
Defined.

Lemma Errorf_opening_v2 p :
  fmt.Errorf "%w: in %v" [fmt.Err V2.ErrOpeningEnvFile; fmt.Str p] =
  errors.Wrap ("error opening .env file: in " +:+ p) V2.ErrOpeningEnvFile.
Proof.
  unfold fmt.Errorf. cbn [fmt.render fmt.show Ascii.eqb]. simpl.
  by rewrite sapp_nil_r.
Qed.

Lemma Errorf_opening_v1 e :
  fmt.Errorf V1.ErrOpeningEnvFile [fmt.Err e] =
  errors.Wrap ("error opening .env file: " +:+ errors.Error e) e.
Proof.
  unfold fmt.Errorf, V1.ErrOpeningEnvFile. cbn [fmt.render fmt.show Ascii.eqb]. simpl.
  by rewrite sapp_nil_r.
Qed.

(** X20: a file that cannot be opened ends the load at once: nothing is
    set, no handle is left open and no later file is tried.  Version 2
    drops the error of the operating system and names the path after
    [ErrOpeningEnvFile]; version 1 wraps the error of the operating
    system. *)
Theorem unopened_file_ends_the_load h g setter f others e w :
  file_lines h (path.Join "." f) = inl e ->
  V2.LoadEnv h g (f :: others) w =
    (Returned (Some (errors.Wrap ("error opening .env file: in " +:+ path.Join "." f)
                       V2.ErrOpeningEnvFile)),
     record w [EvOpen (path.Join "." f)]) /\
  V1.LoadEnv h setter (f :: others) w =
    (Returned (Some (errors.Wrap ("error opening .env file: " +:+ errors.Error e) e)),
     record w [EvOpen (path.Join "." f)]).
Proof.
  intros Hf. unfold V2.LoadEnv, V1.LoadEnv. cbn [length Nat.eqb]. split.
  - by rewrite (V2_load_files_missing _ _ _ _ _ _ Hf), Errorf_opening_v2.
  - by rewrite (V1_load_files_missing _ _ _ _ _ _ _ Hf), Errorf_opening_v1.
Qed.

Lemma unopened_file_ends_the_load_witness :
  let h := demo_host [] [("b.env", ["B=1"])] in
  V2.LoadEnv h (V2.NewGoConfig h []) ["./a.env"; "b.env"] world0 =
    (Returned (Some (errors.Wrap "error opening .env file: in a.env" V2.ErrOpeningEnvFile)),
     record world0 [EvOpen "a.env"]).
Proof.
  intros h.
  exact (proj1 (unopened_file_ends_the_load h (V2.NewGoConfig h []) os.Setenv "./a.env"
                  ["b.env"] (errors.Opaque "open a.env: no such file or directory")
                  world0 eq_refl)).
Defined.

(** ** Further properties: the two versions of LoadEnv *)

Lemma same_effect_refl_error e1 e2 w :
  same_effect (Returned (Some e1), w) (Returned (Some e2), w).
Proof. split; [done|]. exists (Some e1), (Some e2). by repeat split. Qed.

Lemma same_effect_nil w : same_effect (Returned None, w) (Returned None, w).
Proof. split; [done|]. exists None, None. by repeat split. Qed.

Lemma setEnvVarFromLine_same line w :
  same_effect (V1.setEnvVarFromLine os.Setenv V1.envVarPattern line w)
              (V2.setEnvVarFromLine V2.regexEnvFromFile line w).
Proof.
  rewrite envVarPattern_same.
  destruct (regexp.MatchString V2.regexEnvFromFile line) eqn:Em.
  - destruct (assignment_shape_cut line (line_pattern_sound line Em))
      as (key & value & -> & Hne & Heq & Hnul).
    rewrite V1_setEnvVarFromLine_accept, V2_setEnvVarFromLine_accept by done.
    rewrite os_Setenv_run.
    destruct (_ || _); [apply same_effect_refl_error|apply same_effect_nil].
  - unfold V1.setEnvVarFromLine. rewrite Em. cbn [negb].
    destruct (V2_setEnvVarFromLine_cases V2.regexEnvFromFile line)
      as [(key & value & _ & _ & Hm & _)|[_ ->]]; [congruence|].
    apply same_effect_refl_error.
Qed.

(** Two runs with the same effect, continued in the same way after nil
    and ended by an error otherwise. *)
Lemma same_effect_bind (c1 c2 k1 k2 : M (option error)) w :
  same_effect (c1 w) (c2 w) ->
  (forall w', same_effect (k1 w') (k2 w')) ->
  same_effect
    ((let* err := c1 in match err with Some e => ret (Some e) | None => k1 end) w)
    ((let* err := c2 in match err with Some e => ret (Some e) | None => k2 end) w).
Proof.
  intros (Hw & o1 & o2 & H1 & H2 & Hn) Hk. unfold bind.
  destruct (c1 w) as [r1 w1], (c2 w) as [r2 w2]. simpl in *. subst.
  destruct o1 as [e1|], o2 as [e2|].
  - apply same_effect_refl_error.
  - by destruct Hn as [_ Hn]; specialize (Hn eq_refl).
  - by destruct Hn as [Hn _]; specialize (Hn eq_refl).
  - apply Hk.
Qed.

Lemma scan_lines_same ls w :
  same_effect (V1.scan_lines os.Setenv V1.envVarPattern ls w) (V2.scan_lines ls w).
Proof.
  revert w. induction ls as [|l ls IH]; intros w; [apply same_effect_nil|].
  cbn [V1.scan_lines V2.scan_lines].
  change (V1.isCommentOrEmpty l) with (V2.isCommentOrEmpty l).
  destruct (V2.isCommentOrEmpty l); [apply IH|].
  apply same_effect_bind; [apply setEnvVarFromLine_same|apply IH].
Qed.

Lemma parseEnvFile_same st w :
  same_effect (V1.parseEnvFile os.Setenv st w) (V2.parseEnvFile st w).
Proof.
  unfold V1.parseEnvFile, V2.parseEnvFile.
  apply same_effect_bind; [apply scan_lines_same|].
  intros w'. destruct (failure st); [apply same_effect_refl_error|apply same_effect_nil].
Qed.

Lemma load_files_same h dir files w :
  same_effect (V1.load_files h os.Setenv dir files w) (V2.load_files h dir files w).
Proof.
  revert w. induction files as [|f files IH]; intros w; [apply same_effect_nil|].
  destruct (file_lines h (path.Join dir f)) as [e|st] eqn:Ef.
  { rewrite (V1_load_files_missing _ _ _ _ _ _ _ Ef), (V2_load_files_missing _ _ _ _ _ _ Ef).
    apply same_effect_refl_error. }
  rewrite (V1_load_files_open _ _ _ _ _ _ _ Ef), (V2_load_files_open _ _ _ _ _ _ Ef).
  destruct (parseEnvFile_same st (opened (path.Join dir f) w))
    as (Hw & o1 & o2 & H1 & H2 & Hn).
  destruct (V1.parseEnvFile os.Setenv st (opened (path.Join dir f) w)) as [r1 w1].
  destruct (V2.parseEnvFile st (opened (path.Join dir f) w)) as [r2 w2].
  simpl in *. subst.
  destruct o1 as [e1|], o2 as [e2|].
  - apply same_effect_refl_error.
  - by destruct Hn as [_ Hn]; specialize (Hn eq_refl).
  - by destruct Hn as [Hn _]; specialize (Hn eq_refl).
  - unfold bind. rewrite os_Close_run. cbv beta iota. apply IH.
Qed.

(** X14: with [os.Setenv] as its setter, the [LoadEnv] of version 1 and
    the [LoadEnv] of version 2 have the same effect on every list of
    files, whatever the files hold: neither panics, they return nil
    together, and they leave the same environment, the same open files
    and the same sequence of calls; only the error values differ. *)
Theorem LoadEnv_versions_have_the_same_effect h g envFiles w :
  same_effect (V1.LoadEnv h os.Setenv envFiles w) (V2.LoadEnv h g envFiles w).
Proof. apply load_files_same. Qed.

(** ** Further properties: an empty value *)

Lemma identifier_line_valid K : identifier K -> valid_assignment (K +:+ "=") = true.
Proof.
  intros [Hne Hw]. unfold valid_assignment.
  assert (Hkey : all_bytes class_key K = true).
  { apply (all_bytes_impl class_w); [|done]. intros c Hc. unfold class_key. by rewrite Hc. }
  assert (Hm : regexp.MatchString V2.regexEnvFromFile (K +:+ "=") = true)
    by exact (line_pattern_complete "" K "" "" eq_refl Hne Hkey eq_refl eq_refl).
  rewrite Hm.
  rewrite !lacks_app. cbn [andb negb].
  assert (Hnul : lacks "000" K = true).
  { apply (all_bytes_impl class_key); [|done].
    intros c Hc. apply negb_true_iff. by apply class_key_not_nul. }
  rewrite Hnul. change (lacks "=" "=") with false. by rewrite andb_false_r.
Qed.

Lemma identifier_lacks_eq K : identifier K -> lacks "=" K = true.
Proof.
  intros [_ Hw]. apply (all_bytes_impl class_w); [|done].
  intros c Hc. apply negb_true_iff.
  destruct (Ascii.eqb c "=") eqn:E; [|done]. apply Ascii.eqb_eq in E. by subst.
Qed.

(** X15: a line [K=] with nothing after the [=] is a valid assignment:
    it sets [K] to the empty text.  The substitution does not tell this
    from an unset variable: after the load every text that holds the
    placeholder of [K] makes it panic, in both versions. *)
Theorem empty_value_counts_as_not_found K w :
  identifier K ->
  fst (V2.scan_lines [K +:+ "="] w) = Returned None /\
  environ (snd (V2.scan_lines [K +:+ "="] w)) !! K = Some "" /\
  forall before after,
    (exists v, substitute_v2 (before +:+ placeholder K +:+ after)
                 (snd (V2.scan_lines [K +:+ "="] w)) = Panicked v) /\
    (exists v, substitute_v1 (before +:+ placeholder K +:+ after)
                 (snd (V2.scan_lines [K +:+ "="] w)) = Panicked v).
Proof.
  intros HK.
  assert (Hv := identifier_line_valid K HK).
  assert (Hnc : V2.isCommentOrEmpty (K +:+ "=") = false).
  { destruct (V2.isCommentOrEmpty (K +:+ "=")) eqn:E; [|done].
    apply comment_no_match in E. unfold valid_assignment in Hv. by rewrite E in Hv. }
  rewrite V2_scan_lines_run by (constructor; [by right|constructor]).
  cbn [fst snd environ assign_all]. rewrite Hnc.
  rewrite (Cut_app K "" "=") by (by apply identifier_lacks_eq).
  split; [done|]. split; [by rewrite lookup_insert_eq|].
  intros before after.
  set (w' := mkWorld _ _ _).
  assert (Hl : forall nf, lookup_outcome nf w' K = Panicked (nf K)).
  { intros nf. unfold lookup_outcome, getenv, w'. cbn [environ].
    by rewrite lookup_insert_eq. }
  split.
  - rewrite substitute_v2_scan,
      (scan_around_placeholder _ K after w' HK (String.length before)) by done.
    rewrite Hl. destruct (fst _); by eexists.
  - rewrite substitute_v1_scan,
      (scan_around_placeholder _ K after w' HK (String.length before)) by done.
    rewrite Hl. destruct (fst _); by eexists.
Qed.

Lemma empty_value_counts_as_not_found_witness :
  identifier "TOKEN" /\
  environ (snd (V2.scan_lines ["TOKEN="] world0)) !! "TOKEN" = Some "" /\
  exists v, substitute_v2 "auth: ${TOKEN}" (snd (V2.scan_lines ["TOKEN="] world0)) = Panicked v.
Proof.
  assert (H : identifier "TOKEN") by (split; [discriminate|reflexivity]).
  destruct (empty_value_counts_as_not_found "TOKEN" world0 H) as (_ & H2 & H3).
  split; [exact H|]. split; [exact H2|].
  exact (proj1 (H3 "auth: " "")).
Defined.

(** ** Comparison of names up to case *)

Lemma ascii_eqb_nat a b : Ascii.eqb a b = (nat_of_ascii a =? nat_of_ascii b).
Proof.
  destruct (Ascii.eqb a b) eqn:E.
  - apply Ascii.eqb_eq in E as ->. by rewrite Nat.eqb_refl.
  - symmetry. apply Nat.eqb_neq. intros H. apply Ascii.eqb_neq in E. apply E.
    by rewrite <- (ascii_nat_embedding a), <- (ascii_nat_embedding b), H.
Qed.

Lemma nat_of_lower_byte c :
  nat_of_ascii (lower_byte c) =
  if (65 <=? nat_of_ascii c) && (nat_of_ascii c <=? 90)
  then nat_of_ascii c + 32 else nat_of_ascii c.
Proof.
  unfold lower_byte, byte_in.
  destruct ((65 <=? nat_of_ascii c) && (nat_of_ascii c <=? 90)) eqn:E; [|done].
  apply andb_true_iff in E as [_ E%Nat.leb_le].
  apply nat_ascii_embedding. lia.
Qed.

(** One turn of the loop of [strings.EqualFold] on two ASCII bytes that
    differ: they pass exactly when they are the two cases of a letter. *)
Lemma fold_bytes sr tr :
  nat_of_ascii sr < 128 -> nat_of_ascii tr < 128 -> Ascii.eqb tr sr = false ->
  (65 <=? Nat.min (nat_of_ascii sr) (nat_of_ascii tr)) &&
  (Nat.min (nat_of_ascii sr) (nat_of_ascii tr) <=? 90) &&
  (Nat.max (nat_of_ascii sr) (nat_of_ascii tr) =?
     Nat.min (nat_of_ascii sr) (nat_of_ascii tr) + 32) =
  Ascii.eqb (lower_byte sr) (lower_byte tr).
Proof.
  intros Hs Ht Hne. rewrite ascii_eqb_nat in Hne. apply Nat.eqb_neq in Hne.
  rewrite ascii_eqb_nat, !nat_of_lower_byte.
  set (n := nat_of_ascii sr) in *. set (m := nat_of_ascii tr) in *.
  destruct (65 <=? n) eqn:E1, (n <=? 90) eqn:E2, (65 <=? m) eqn:E3, (m <=? 90) eqn:E4;
    cbn [andb];
    repeat match goal with
    | H : (_ <=? _) = true |- _ => apply Nat.leb_le in H
    | H : (_ <=? _) = false |- _ => apply Nat.leb_gt in H
    end;
    apply eq_true_iff_eq;
    rewrite ?andb_true_iff, ?Nat.leb_le, ?Nat.eqb_eq; lia.
Qed.

(** On ASCII texts [strings.EqualFold] is equality of the texts with
    their letters made lower-case, whatever the folding of the other
    runes is. *)
Lemma EqualFold_ascii u s t :
  ascii_text s -> ascii_text t ->
  strings.EqualFold u s t = String.eqb (lower_text s) (lower_text t).
Proof.
  unfold ascii_text. revert t. induction s as [|sr s IH]; intros [|tr t]; try done.
  cbn [all_bytes]. intros [Hsr Hs]%andb_true_iff [Htr Ht]%andb_true_iff.
  apply Nat.ltb_lt in Hsr, Htr.
  cbn [strings.EqualFold lower_text String.eqb].
  assert (H1 : (128 <=? nat_of_ascii sr) = false) by (apply Nat.leb_gt; lia).
  assert (H2 : (128 <=? nat_of_ascii tr) = false) by (apply Nat.leb_gt; lia).
  rewrite H1, H2. cbn [orb].
  destruct (Ascii.eqb tr sr) eqn:E.
  - apply Ascii.eqb_eq in E as ->. rewrite Ascii.eqb_refl. by apply IH.
  - rewrite (fold_bytes sr tr Hsr Htr E).
    destruct (Ascii.eqb (lower_byte sr) (lower_byte tr)); [by apply IH|done].
Qed.

Lemma ascii_text_app a b : ascii_text (a +:+ b) <-> ascii_text a /\ ascii_text b.
Proof. unfold ascii_text. by rewrite all_bytes_app, andb_true_iff. Qed.

(** The candidates of the code are, among ASCII names, the entries the
    file location looks for. *)
Lemma candidate_selected h keep N file :
  ascii_text N -> ascii_text file ->
  candidate h keep N file = true <-> selected keep N file.
Proof.
  intros HN Hf. rewrite candidate_eq.
  destruct (strings.Cut file ".") as [[stem ext] found] eqn:Ec. split.
  - intros H. destruct found; [|done].
    apply Cut_found in Ec as [-> Hl].
    apply ascii_text_app in Hf as [Hstem _].
    cbn [andb] in H. apply andb_true_iff in H as [Hk He].
    rewrite EqualFold_ascii in He by done. apply String.eqb_eq in He.
    by exists stem, ext.
  - intros (stem' & ext' & -> & Hl & Hk & He).
    rewrite Cut_app in Ec by done. injection Ec as <- <- <-.
    apply ascii_text_app in Hf as [Hstem _].
    rewrite Hk, EqualFold_ascii by done. cbn [andb]. by apply String.eqb_eq.
Qed.

(** Whether an entry is looked for can be computed, without the
    comparison of the code. *)
Lemma selected_cut keep N file :
  selected keep N file <->
  (let '(stem, extension, found) := strings.Cut file "." in
   found && keep extension && String.eqb (lower_text stem) (lower_text N)) = true.
Proof.
  destruct (strings.Cut file ".") as [[stem ext] found] eqn:Ec. split.
  - intros (stem' & ext' & -> & Hl & Hk & He).
    rewrite Cut_app in Ec by done. injection Ec as <- <- <-.
    rewrite Hk. cbn [andb]. by apply String.eqb_eq.
  - intros H. destruct found; [|done].
    apply Cut_found in Ec as [-> Hl]. cbn [andb] in H.
    apply andb_true_iff in H as [Hk He%String.eqb_eq]. by exists stem, ext.
Qed.


(** ** The substitution, in the words of the specification *)

Lemma scan_plain nf b text w :
  ~ has_placeholder text ->
  fst (regexp.replaceAll V2.regexEnv (substitute_var nf) b 0 text w) = Returned text.
Proof. intros H. by rewrite replaceAll_identity. Qed.

Lemma scan_expands nf w text out :
  Expands w text out ->
  fst (regexp.replaceAll V2.regexEnv (substitute_var nf) false 0 text w) = Returned out.
Proof.
  induction 1 as [text H|before name after out Hb Hid Hset _ IH].
  - by apply scan_plain.
  - rewrite (scan_around_placeholder nf name after w Hid (String.length before)) by done.
    rewrite scan_plain, IH by done. unfold lookup_outcome.
    apply String.eqb_neq in Hset. by rewrite Hset.
Qed.

Lemma substitute_expands w text out :
  Expands w text out ->
  substitute_v1 text w = Returned out /\ substitute_v2 text w = Returned out.
Proof.
  intros H. rewrite substitute_v1_scan, substitute_v2_scan. split; by apply scan_expands.
Qed.









(** ** Further properties: reading the configuration *)

Lemma first_candidate_none h keep N files :
  first_candidate h keep N files = None <->
  Forall (fun f => candidate h keep N f = false) files.
Proof.
  unfold first_candidate. induction files as [|f files IH]; [by split|]. simpl.
  destruct (candidate h keep N f) eqn:E.
  - split; [done|]. intros H. inversion H; subst. congruence.
  - rewrite IH. split; [by constructor|]. intros H. by inversion H.
Qed.

Lemma Errorf_unsupported_v1 N :
  fmt.Errorf V1.ErrUnsupportedExt [fmt.Str N] =
  errors.Opaque ("unsupported extension " +:+ N).
Proof.
  unfold fmt.Errorf, V1.ErrUnsupportedExt. cbn [fmt.render fmt.show Ascii.eqb]. simpl.
  by rewrite sapp_nil_r.
Qed.

Lemma Errorf_unsupported_v2 N :
  fmt.Errorf "%w: in profile %v" [fmt.Err V2.ErrUnsupportedExt; fmt.Str N] =
  errors.Wrap ("unsupported extension: in profile " +:+ N) V2.ErrUnsupportedExt.
Proof.
  unfold fmt.Errorf. cbn [fmt.render fmt.show Ascii.eqb]. simpl.
  by rewrite sapp_nil_r.
Qed.

Lemma read_error_v1_wrap err :
  read_error_v1 err = errors.Wrap ("error reading file: " +:+ errors.Error err) err.
Proof.
  unfold read_error_v1, fmt.Errorf, V1.ErrReadingFile.
  cbn [fmt.render fmt.show Ascii.eqb]. simpl. by rewrite sapp_nil_r.
Qed.

Lemma no_candidate_selected h keep N files :
  ascii_text N -> Forall ascii_text files ->
  Forall (fun f => candidate h keep N f = false) files <->
  Forall (fun f => ~ selected keep N f) files.
Proof.
  intros HN Hf. rewrite !Forall_forall. rewrite Forall_forall in Hf.
  split; intros H f Hin.
  - intros Hs. apply (candidate_selected h) in Hs; [|done|by apply Hf].
    by rewrite (H f Hin) in Hs.
  - destruct (candidate h keep N f) eqn:E; [|done].
    apply candidate_selected in E; [|done|by apply Hf]. by apply H in E.
Qed.

(** X16: when the directory can be listed and the names are ASCII,
    [read] answers with the unsupported-extension error exactly when no
    entry of the listing is looked for: no entry is a stem without a dot
    that equals the name but for the case of its letters, followed by a
    dot and an extension the policy lets through.  In version 2 the error
    wraps [ErrUnsupportedExt]; in version 1 it is a plain text that names
    the profile. *)
Theorem unsupported_extension_iff_no_candidate h N basePath files w :
  dir_entries h (directory_of basePath) = inr files ->
  ascii_text N -> Forall ascii_text files ->
  ((exists err, fst (V2.read h N basePath w) = Returned (inl err) /\
                errors.Is err "unsupported extension" = true) <->
   Forall (fun f => ~ selected deny_list N f) files) /\
  (fst (V1.read h N (directory_of basePath) w) =
     Returned (inl (errors.Opaque ("unsupported extension " +:+ N))) <->
   Forall (fun f => ~ selected allow_list N f) files).
Proof.
  intros Hd HN Hf. split.
  - rewrite <- (no_candidate_selected h) by done.
    rewrite (V2_read_run_any h N basePath w). cbv zeta.
    fold (directory_of basePath). rewrite Hd.
    rewrite <- first_candidate_none.
    destruct (first_candidate h deny_list N files) as [f|].
    + split; [|done]. intros (err & H & His). exfalso. cbn [fst] in H.
      destruct (file_bytes h (path.Join (directory_of basePath) f)) as [e|c];
        cbn [read_result] in H.
      * injection H as <-. unfold read_error_v2 in His.
        rewrite Errorf_wrap_string in His. discriminate.
      * by destruct (substitute_v2 c w).
    + split; [done|]. intros _. eexists. split; [done|].
      by rewrite Errorf_unsupported_v2.
  - rewrite <- (no_candidate_selected h) by done.
    rewrite V1_read_run, Hd. rewrite <- first_candidate_none.
    destruct (first_candidate h allow_list N files) as [f|].
    + split; [|done]. intros H. exfalso. cbn [fst] in H.
      destruct (file_bytes h (path.Join (directory_of basePath) f)) as [e|c];
        cbn [read_result] in H.
      * injection H as H. by rewrite read_error_v1_wrap in H.
      * by destruct (substitute_v1 c w).
    + split; [done|]. intros _. cbn [fst]. by rewrite Errorf_unsupported_v1.
Qed.

Lemma unsupported_extension_iff_no_candidate_witness :
  let h := demo_host [("zzz.yaml", "z: 1"); ("main.go", "package main");
                      ("README", "main"); ("main", "x")] [] in
  (exists err, fst (V2.read h "main" ["conf"] world0) = Returned (inl err) /\
               errors.Is err "unsupported extension" = true) /\
  fst (V1.read h "main" "conf" world0) =
    Returned (inl (errors.Opaque "unsupported extension main")).
Proof.
  intros h.
  assert (Ha : Forall ascii_text ["zzz.yaml"; "main.go"; "README"; "main"])
    by (repeat constructor).
  destruct (unsupported_extension_iff_no_candidate h "main" ["conf"]
              ["zzz.yaml"; "main.go"; "README"; "main"] world0 eq_refl eq_refl Ha)
    as [H2 H1].
  split.
  - apply H2. repeat constructor; intros H%selected_cut; discriminate.
  - apply H1. repeat constructor; intros H%selected_cut; discriminate.
Defined.

Lemma V1_readConfig_run h N basePath w :
  V1.readConfig h N basePath w =
  match V1.read h N (directory_of basePath) w with
  | (Returned (inl err), w') =>
      (Returned (inl (fmt.Errorf V1.ErrReadingConfig [fmt.Err err])), w')
  | (Returned (inr content), w') => (Returned (inr content), w')
  | (Panicked v, w') => (Panicked v, w')
  end.
Proof.
  unfold V1.readConfig, bind, directory_of.
  by destruct (V1.read h N _ w) as [[[err|content]|v] w'].
Qed.

Lemma V1_NewConfig_run h N basePath w :
  V1.NewConfig h N basePath w =
  match V1.readConfig h N basePath w with
  | (Returned (inl err), w') => (Returned (Some err), w')
  | (Returned (inr content), w') =>
      (Returned (match yaml_Unmarshal h content with
                 | Some err => Some (fmt.Errorf V1.ErrUnmarshalling [fmt.Err err])
                 | None => None
                 end),
       record w' [EvUnmarshal content])
  | (Panicked v, w') => (Panicked v, w')
  end.
Proof.
  unfold V1.NewConfig, bind at 1.
  destruct (V1.readConfig h N basePath w) as [[[err|content]|v] w']; try done.
  unfold V1.unmarshallGeneric, bind, emit, ret. cbv beta iota.
  by destruct (yaml_Unmarshal h content).
Qed.

(** What [read] leaves of the world: the environment and the open files
    are the ones before the call, and no deserializer call is added. *)
Lemma V2_read_frame h N basePath w :
  environ (snd (V2.read h N basePath w)) = environ w /\
  open_files (snd (V2.read h N basePath w)) = open_files w.
Proof.
  rewrite V2_read_run_any. cbv zeta.
  destruct (dir_entries h _) as [|files];
    [|destruct (first_candidate h deny_list N files)]; done.
Qed.

Lemma V1_read_frame h N dir w :
  environ (snd (V1.read h N dir w)) = environ w /\
  open_files (snd (V1.read h N dir w)) = open_files w /\
  unmarshal_calls (trace (snd (V1.read h N dir w))) = unmarshal_calls (trace w).
Proof.
  rewrite V1_read_run.
  destruct (dir_entries h dir) as [|files];
    [|destruct (first_candidate h allow_list N files)];
    cbn [snd]; rewrite unmarshal_calls_record; simpl; by rewrite app_nil_r.
Qed.

(** X17: parsing a configuration only reads, but for what the
    deserializer does.  In version 2 [read] leaves the environment and
    the open files as they were, and [ParseConfig] is [read] followed,
    when it returned a content, by one call of the deserializer in the
    world [read] left, whose outcome and world are those of
    [ParseConfig]: whatever changes is changed by the deserializer.
    With the default deserializer, and in version 1, the environment and
    the open files are left as they were whatever the outcome, and the
    deserializer is called once with the content that was read, and not
    at all when none was. *)
Theorem parsing_only_reads h g N basePath w :
  (environ (snd (V2.read h N basePath w)) = environ w /\
   open_files (snd (V2.read h N basePath w)) = open_files w /\
   unmarshal_calls (trace (snd (V2.read h N basePath w))) = unmarshal_calls (trace w) /\
   V2.ParseConfig h g N basePath w =
     match V2.read h N basePath w with
     | (Returned (inr content), w') =>
         V2.unmarshallFunc g content (record w' [EvUnmarshal content])
     | (Returned (inl err), w') => (Returned (Some err), w')
     | (Panicked v, w') => (Panicked v, w')
     end) /\
  (environ (snd (V2.ParseConfig h (V2.NewGoConfig h []) N basePath w)) = environ w /\
   open_files (snd (V2.ParseConfig h (V2.NewGoConfig h []) N basePath w)) = open_files w /\
   unmarshal_calls (trace (snd (V2.ParseConfig h (V2.NewGoConfig h []) N basePath w))) =
     unmarshal_calls (trace w) ++ content_of (fst (V2.read h N basePath w))) /\
  (environ (snd (V1.NewConfig h N basePath w)) = environ w /\
   open_files (snd (V1.NewConfig h N basePath w)) = open_files w /\
   unmarshal_calls (trace (snd (V1.NewConfig h N basePath w))) =
     unmarshal_calls (trace w) ++ content_of (fst (V1.readConfig h N basePath w))).
Proof.
  destruct (V2_read_frame h N basePath w) as [He Ho].
  pose proof (V2_read_no_unmarshal h N basePath w) as Hu.
  split; [|split].
  - split; [done|]. split; [done|]. split; [done|].
    rewrite V2_ParseConfig_run.
    by destruct (V2.read h N basePath w) as [[[err|content]|v] w'].
  - rewrite V2_ParseConfig_run.
    destruct (V2.read h N basePath w) as [[[err|content]|v] w']; simpl in *;
      unfold V2.unmarshallYAML; try destruct (yaml_Unmarshal h content);
      simpl; unfold unmarshal_calls in *; rewrite ?omap_app, ?Hu, ?app_nil_r; done.
  - rewrite V1_NewConfig_run, V1_readConfig_run.
    destruct (V1_read_frame h N (directory_of basePath) w) as (He1 & Ho1 & Hu1).
    destruct (V1.read h N (directory_of basePath) w) as [[[err|content]|v] w'];
      simpl in *; unfold unmarshal_calls in *; rewrite ?omap_app, ?Hu1, ?app_nil_r; done.
Qed.

Lemma Errorf_wrap_strings sentinel l :
  fmt.Errorf V2.formatError [fmt.Err sentinel; fmt.Strs l] =
  errors.Wrap (errors.Error sentinel +:+ ": " +:+ fmt.show (fmt.Strs l)) sentinel.
Proof.
  unfold fmt.Errorf, V2.formatError. cbn [fmt.render Ascii.eqb].
  simpl. by rewrite sapp_nil_r.
Qed.

Lemma Errorf_reading_config e :
  fmt.Errorf V1.ErrReadingConfig [fmt.Err e] =
  errors.Wrap ("error reading configuration: " +:+ errors.Error e) e.
Proof.
  unfold fmt.Errorf, V1.ErrReadingConfig. cbn [fmt.render fmt.show Ascii.eqb]. simpl.
  by rewrite sapp_nil_r.
Qed.

(** X18: when the directory cannot be listed nothing is read and the
    deserializer is not called.  Version 2 drops the error of the
    operating system: its error wraps [ErrOpenDir] and shows the
    [basePath] arguments as a slice, so for the default directory the
    text ends in [[]] and does not name [config].  Version 1 wraps the
    error of the operating system. *)
Theorem unlisted_directory_is_reported h g N basePath e w :
  dir_entries h (directory_of basePath) = inl e ->
  V2.ParseConfig h g N basePath w =
    (Returned (Some (errors.Wrap
                       ("error opening directory: " +:+ fmt.show (fmt.Strs basePath))
                       V2.ErrOpenDir)),
     record w [EvReadDir (directory_of basePath)]) /\
  V1.NewConfig h N basePath w =
    (Returned (Some (errors.Wrap ("error reading configuration: " +:+ errors.Error e) e)),
     record w [EvReadDir (directory_of basePath)]).
Proof.
  intros Hd. split.
  - rewrite V2_ParseConfig_run, V2_read_run_any. cbv zeta.
    fold (directory_of basePath). rewrite Hd. by rewrite Errorf_wrap_strings.
  - rewrite V1_NewConfig_run, V1_readConfig_run, V1_read_run, Hd.
    by rewrite Errorf_reading_config.
Qed.

Lemma unlisted_directory_is_reported_witness :
  let h := demo_host [("app.yaml", "a: 1")] [] in
  V2.ParseConfig h (V2.NewGoConfig h []) "app" [] world0 =
    (Returned (Some (errors.Wrap "error opening directory: []" V2.ErrOpenDir)),
     record world0 [EvReadDir "config"]).
Proof.
  intros h.
  exact (proj1 (unlisted_directory_is_reported h (V2.NewGoConfig h []) "app" []
                  (errors.Opaque "open config: no such file or directory") world0 eq_refl)).
Defined.

Lemma candidate_first_dot h keep N stem ext :
  lacks "." stem = true ->
  candidate h keep N (stem +:+ String "." ext) =
  keep ext && strings.EqualFold (unicode_fold h) stem N.
Proof. intros H. unfold candidate. by rewrite Cut_app. Qed.

(** X19: the extension of an entry is all that follows its first dot.
    For an entry [stem.ext] whose stem has no dot and equals the name up
    to case: version 2 reads it unless [ext] is exactly [go], so
    [app.test.go] and [app.] are read; version 1 reads it if [ext] is
    exactly [yaml], [yml] or [json] and passes it over otherwise, so
    [app.prod.yaml] is passed over. *)
Theorem extension_follows_the_first_dot h N dir stem ext others w :
  lacks "." stem = true ->
  strings.EqualFold (unicode_fold h) stem N = true ->
  (ext <> "go" ->
   files_read (trace (snd (V2.read_files h dir N ((stem +:+ String "." ext) :: others) w))) =
     files_read (trace w) ++ [path.Join dir (stem +:+ String "." ext)]) /\
  (ext = "go" ->
   V2.read_files h dir N ((stem +:+ String "." ext) :: others) w =
   V2.read_files h dir N others w) /\
  (In ext ["yaml"; "yml"; "json"] ->
   files_read (trace (snd (V1.read_files h N dir ((stem +:+ String "." ext) :: others) w))) =
     files_read (trace w) ++ [path.Join dir (stem +:+ String "." ext)]) /\
  (~ In ext ["yaml"; "yml"; "json"] ->
   V1.read_files h N dir ((stem +:+ String "." ext) :: others) w =
   V1.read_files h N dir others w).
Proof.
  intros Hs Hf.
  assert (H2 : first_candidate h deny_list N ((stem +:+ String "." ext) :: others) =
               if deny_list ext then Some (stem +:+ String "." ext)
               else first_candidate h deny_list N others).
  { unfold first_candidate. cbn [List.find].
    by rewrite candidate_first_dot, Hf, andb_true_r. }
  assert (H1 : first_candidate h allow_list N ((stem +:+ String "." ext) :: others) =
               if allow_list ext then Some (stem +:+ String "." ext)
               else first_candidate h allow_list N others).
  { unfold first_candidate. cbn [List.find].
    by rewrite candidate_first_dot, Hf, andb_true_r. }
  split; [|split; [|split]].
  - intros Hne. rewrite V2_read_files_run, H2.
    assert (Hk : deny_list ext = true).
    { unfold deny_list. apply negb_true_iff.
      destruct (slices.Contains V2.excludeExtensions ext) eqn:E; [|done].
      apply Contains_In in E as [E|[]]. congruence. }
    rewrite Hk. cbn [snd]. by rewrite files_read_record.
  - intros ->. by rewrite !V2_read_files_run, H2.
  - intros Hin. rewrite V1_read_files_run, H1.
    assert (Hk : allow_list ext = true) by (by apply Contains_In).
    rewrite Hk. cbn [snd]. by rewrite files_read_record.
  - intros Hin. rewrite !V1_read_files_run, H1.
    assert (Hk : allow_list ext = false).
    { destruct (allow_list ext) eqn:E; [|done]. by apply Contains_In in E. }
    by rewrite Hk.
Qed.

Lemma extension_follows_the_first_dot_witness :
  let h := demo_host [("app.test.go", "package app"); ("app.yaml", "a: 1")] [] in
  files_read (trace (snd (V2.read_files h "conf" "app" ["app.test.go"; "app.yaml"] world0))) =
    ["conf/app.test.go"] /\
  V1.read_files h "app" "conf" ["app.test.go"; "app.yaml"] world0 =
    V1.read_files h "app" "conf" ["app.yaml"] world0.
Proof.
  intros h.
  destruct (extension_follows_the_first_dot h "app" "conf" "app" "test.go" ["app.yaml"]
              world0 eq_refl eq_refl) as (H2 & _ & _ & H1).
  split.
  - apply H2. discriminate.
  - apply H1. intros [H|[H|[H|[]]]]; discriminate.
Defined.

(** ** Samples *)

(** [path.Clean] on cases of the table of Go's own tests. *)
Example path_Clean_samples :
  map path.Clean
    [""; "abc"; "abc/def"; "."; ".."; "../../abc"; "/abc"; "/"; "abc/"; "./"; "../"; "/abc/";
     "abc//def//ghi"; "//abc"; "abc/./def"; "/./abc/def"; "abc/.";
     "abc/def/ghi/../jkl"; "abc/def/../.."; "/abc/def/../.."; "abc/def/../../..";
     "/abc/def/../../.."; "abc/def/../../../ghi/jkl/../../../mno";
     "abc/./../def"; "abc/../../././../def"] =
    ["."; "abc"; "abc/def"; "."; ".."; "../../abc"; "/abc"; "/"; "abc"; "."; ".."; "/abc";
     "abc/def/ghi"; "/abc"; "abc/def"; "/abc/def"; "abc";
     "abc/def/jkl"; "."; "/"; "..";
     "/"; "../../mno";
     "def"; "../../def"].
Proof. reflexivity. Qed.

(** [path.Join] cleans: under the directory [.] an absolute name becomes
    a relative one, and a leading [./] goes away. *)
Example path_Join_samples :
  path.Join "." ".env" = ".env" /\
  path.Join "." "./a.env" = "a.env" /\
  path.Join "." "/etc/app.env" = "etc/app.env" /\
  path.Join "." "../x.env" = "../x.env" /\
  path.Join "." "" = "." /\
  path.Join "" "" = "" /\
  path.Join "conf/" "app.yaml" = "conf/app.yaml" /\
  path.Join "conf" "app.yaml" = "conf/app.yaml" /\
  path.Join "a" "/b" = "a/b" /\
  path.Join "/" "a/b" = "/a/b".
Proof. repeat split; reflexivity. Qed.

(** A deserializer is any function: what it does to the world stays, and
    its panic is the panic of [ParseConfig]. *)
Example deserializer_effects_are_kept :
  let h := demo_host [("app.yaml", "a: 1")] [] in
  let setting := V2.NewGoConfig h [fun content => os.Setenv "LOADED" content] in
  let absent := V2.NewGoConfig h [fun _ => panic (errors.Opaque "nil pointer dereference")] in
  getenv (snd (V2.ParseConfig h setting "app" ["conf"] world0)) "LOADED" = "a: 1" /\
  fst (V2.ParseConfig h absent "app" ["conf"] world0) =
    Panicked (errors.Opaque "nil pointer dereference").
Proof. cbv zeta. split; reflexivity. Qed.

(** The comparison of names: the two cases of a letter are the same, two
    letters are not, and a letter and the sign 32 places after it are
    not. *)
Example EqualFold_samples :
  strings.EqualFold (fun _ _ => false) "App" "aPP" = true /\
  strings.EqualFold (fun _ _ => false) "zzz" "app" = false /\
  strings.EqualFold (fun _ _ => false) "app" "apps" = false /\
  strings.EqualFold (fun _ _ => false) "a@b" "a`b" = false /\
  strings.EqualFold (fun _ _ => false) "a[b" "a{b" = false /\
  strings.EqualFold (fun _ _ => false) "" "" = true.
Proof. repeat split; reflexivity. Qed.

(** ** The file location *)







(** ** An invalid line *)

(** C5 (amended): when [LoadEnv] reaches an env file (the files before it
    in the call loaded without error) that holds a candidate line that is
    not a valid assignment (no [=], a blank key, or any other mismatch of
    the pattern) after lines that are comments, blanks or assignments
    [os.Setenv] accepts, it returns [ErrInvalidEnvFormat] with the raw
    line, in the world [w'] the earlier lines left: no later line and no
    later file is processed, and the variables the earlier lines set are
    still set. *)
Theorem invalid_line_aborts_load h g earlier envFile others pre bad post fail w0 w :
  V2.load_files h "." earlier w0 = (Returned None, w) ->
  file_lines h (path.Join "." envFile) = inr (mkStream (pre ++ bad :: post) fail) ->
  Forall (fun l => V2.isCommentOrEmpty l = true \/ valid_assignment l = true) pre ->
  V2.isCommentOrEmpty bad = false ->
  lacks "=" bad = true \/
  (exists ws rest, all_bytes class_s ws = true /\ bad = ws +:+ String "=" rest) \/
  regexp.MatchString V2.regexEnvFromFile bad = false ->
  exists w',
    V2.scan_lines pre (opened (path.Join "." envFile) w) = (Returned None, w') /\
    V2.LoadEnv h g (earlier ++ envFile :: others) w0 =
      (Returned (Some (errors.Wrap ("invalid .env format: " +:+ bad) V2.ErrInvalidEnvFormat)),
       w') /\
    (forall line key value,
       In line pre -> V2.isCommentOrEmpty line = false ->
       strings.Cut line "=" = (key, value, true) -> is_Some (environ w' !! key)).
Proof.
  intros Hearlier Hfile Hvalid Hnc Hbad.
  destruct (V2_scan_lines_valid pre (opened (path.Join "." envFile) w) Hvalid)
    as [w' Hpre].
  exists w'. split; [done|].
  split; [|by apply (V2_scan_lines_keeps _ _ _ Hpre)].
  assert (Hrej : V2.setEnvVarFromLine V2.regexEnvFromFile bad = ret (Some (invalid_line_v2 bad))).
  { destruct (V2_setEnvVarFromLine_cases V2.regexEnvFromFile bad)
      as [(key & value & Hl & Hk & Hm & _)|[_ H]]; [|done].
    exfalso. destruct Hbad as [Hb|[(ws & rest & Hws & Hb)|Hb]].
    - by apply (lacks_no_split _ _ Hb key value).
    - rewrite Hb, blank_key_rejected in Hm by done. done.
    - congruence. }
  assert (Hlen : (length (earlier ++ envFile :: others) =? 0) = false).
  { apply Nat.eqb_neq. rewrite length_app. simpl. lia. }
  unfold V2.LoadEnv. rewrite Hlen, V2_load_files_app, Hearlier.
  rewrite (V2_load_files_open _ _ _ _ _ _ Hfile).
  rewrite (V2_parseEnvFile_abort _ (invalid_line_v2 bad) _ w').
  - by rewrite invalid_line_v2_text.
  - cbn [lines]. rewrite V2_scan_lines_app, Hpre.
    by apply V2_scan_lines_invalid.
Qed.

Lemma invalid_line_aborts_load_witness :
  let h := demo_host [] [("base.env", ["STAGE=dev"]);
                         (".env", ["# settings"; "APP_NAME=TestApp"; "APP_VERSION:1.0"; "AUTHOR=me"]);
                         ("other.env", ["X=1"])] in
  let pre := ["# settings"; "APP_NAME=TestApp"] in
  let w := mkWorld {[ "STAGE" := "dev" ]} []
             [EvOpen "base.env"; EvSetenv "STAGE" "dev"; EvClose "base.env"] in
  let w' := mkWorld (<[ "APP_NAME" := "TestApp" ]> {[ "STAGE" := "dev" ]}) [".env"]
              [EvOpen "base.env"; EvSetenv "STAGE" "dev"; EvClose "base.env";
               EvOpen ".env"; EvSetenv "APP_NAME" "TestApp"] in
  V2.load_files h "." ["base.env"] world0 = (Returned None, w) /\
  file_lines h (path.Join "." "./.env") =
    inr (mkStream (pre ++ "APP_VERSION:1.0" :: ["AUTHOR=me"]) None) /\
  Forall (fun l => V2.isCommentOrEmpty l = true \/ valid_assignment l = true) pre /\
  V2.isCommentOrEmpty "APP_VERSION:1.0" = false /\
  lacks "=" "APP_VERSION:1.0" = true /\
  V2.LoadEnv h (V2.NewGoConfig h []) ["base.env"; "./.env"; "other.env"] world0 =
    (Returned (Some (errors.Wrap "invalid .env format: APP_VERSION:1.0" V2.ErrInvalidEnvFormat)),
     w') /\
  is_Some (environ w' !! "APP_NAME") /\ is_Some (environ w' !! "STAGE").
Proof.
  intros h pre w w'.
  assert (Hpre : Forall (fun l => V2.isCommentOrEmpty l = true \/ valid_assignment l = true) pre).
  { constructor; [by left|]. constructor; [by right|]. constructor. }
  destruct (invalid_line_aborts_load h (V2.NewGoConfig h []) ["base.env"] "./.env"
              ["other.env"] pre "APP_VERSION:1.0" ["AUTHOR=me"] None
              world0 w eq_refl eq_refl Hpre eq_refl (or_introl eq_refl))
    as (w1 & H0 & H1 & H2).
  assert (w1 = w') as ->.
  { vm_compute in H0. injection H0 as <-. vm_compute. reflexivity. }
  split; [reflexivity|]. split; [reflexivity|]. split; [exact Hpre|].
  split; [reflexivity|]. split; [reflexivity|]. split; [exact H1|].
  split.
  - apply (H2 "APP_NAME=TestApp" "APP_NAME" "TestApp");
      [right; by left|reflexivity|reflexivity].
  - by eexists.
Defined.

(** Counterexample to C5 as stated: an earlier line that matches the
    pattern but that [os.Setenv] refuses (its value holds a NUL byte) ends
    the load before the invalid line is looked at, with the error of
    [os.Setenv] and not with [ErrInvalidEnvFormat]. *)
Lemma setter_refusal_comes_before_the_invalid_line :
  let h := demo_host [] [(".env", ["A=" +:+ bytes [0]; "B:1"])] in
  V2.isCommentOrEmpty "B:1" = false /\
  lacks "=" "B:1" = true /\
  regexp.MatchString V2.regexEnvFromFile ("A=" +:+ bytes [0]) = true /\
  fst (V2.LoadEnv h (V2.NewGoConfig h []) [".env"] world0) =
    Returned (Some (errors.Opaque "setenv: invalid argument")) /\
  errors.Is (errors.Opaque "setenv: invalid argument") "invalid .env format" = false /\
  fst (V2.LoadEnv h (V2.NewGoConfig h []) [".env"] world0) <>
    Returned (Some (errors.Wrap "invalid .env format: B:1" V2.ErrInvalidEnvFormat)).
Proof. cbv zeta. repeat split; try reflexivity. vm_compute. discriminate. Qed.
